(** * The memo_js wrapper ([memo_js/src/index.ts]) as a shallow embedding

    The file under study is the TypeScript front of the synchronisation
    engine: a [request] helper that forwards tagged request objects to a
    dispatcher ([server.request]) and the [WorkTree] class built on it.

    - JavaScript values are a small inductive type, objects are field
      lists in literal order;
    - the dispatcher is a parameter: a state type and a transition
      function from a request to a response;
    - wrapper code lives in a state and exception monad over the process
      state (module variable [server], static [WorkTree.rootFileId], the
      history of what was sent);
    - [reset] is cut at its suspension points, and [this.nextResetId],
      which the class never declares or assigns, is undefined or NaN;
    - the method [async init(head)] has [yield] in its body without being
      declared a generator ([async *init]); it is not embedded. *)

From Stdlib Require Import ZArith Lia.
From stdpp Require Import base gmap list strings.

Set Warnings "-register-all,-clear-no-such-hyp".
Local Open Scope string_scope.
Local Open Scope Z_scope.
Local Open Scope list_scope.

(** ** JavaScript values *)

Module Js.

(** Numbers are the integer-valued ones (replica ids, counters, handles). *)
Inductive Val : Type :=
| Undefined
| Null
| Bool (b : bool)
| Num (n : Z)
| Str (s : string)
| Arr (items : list Val)
| Obj (fields : list (string * Val)).

(** ToBoolean. *)
Definition truthy (v : Val) : bool :=
  match v with
  | Undefined | Null => false
  | Bool b => b
  | Num n => negb (n =? 0)
  | Str s => negb (String.eqb s "")
  | Arr _ | Obj _ => true
  end.

(** [a || b] *)
Definition or (a b : Val) : Val := if truthy a then a else b.

(** Lookup of a key in a field list; a missing key reads as [undefined]. *)
Fixpoint assoc (k : string) (fs : list (string * Val)) : Val :=
  match fs with
  | [] => Undefined
  | (k', v) :: rest => if String.eqb k k' then v else assoc k rest
  end.

(** [v.k] on a value that is not [null] or [undefined]. *)
Definition get (v : Val) (k : string) : Val :=
  match v with
  | Obj fs => assoc k fs
  | _ => Undefined
  end.

(** Whether an object literal has an own field [k]. *)
Definition has_field (v : Val) (k : string) : bool :=
  match v with
  | Obj fs => bool_decide (k ∈ fs.*1)
  | _ => false
  end.

(** What a [throw] carries. [Error arg] is [new Error(arg)]. *)
Inductive Thrown : Type :=
| Error (arg : Val)
| ReferenceError (name : string).

End Js.

(** ** Data types of the wrapper *)

Inductive FileType := Directory | Text.

Definition FileType_str (t : FileType) : string :=
  match t with Directory => "Directory" | Text => "Text" end.

Record BaseEntry := { be_depth : Z; be_name : string; be_type : FileType }.

Record Point := { row : Z; column : Z }.
Record Range := { r_start : Point; r_end : Point }.

Definition BaseEntry_val (e : BaseEntry) : Js.Val :=
  Js.Obj [("depth", Js.Num (be_depth e)); ("name", Js.Str (be_name e));
          ("type", Js.Str (FileType_str (be_type e)))].

Definition Point_val (p : Point) : Js.Val :=
  Js.Obj [("row", Js.Num (row p)); ("column", Js.Num (column p))].

Definition Range_val (r : Range) : Js.Val :=
  Js.Obj [("start", Point_val (r_start r)); ("end", Point_val (r_end r))].

(** Identifiers are strings on the wire; the wrapper never inspects them. *)
Abbreviation FileId := Js.Val.
Abbreviation BufferId := Js.Val.
Abbreviation Version := Js.Val.
Abbreviation Operation := Js.Val.
Abbreviation Oid := Js.Val.

(** A response of the dispatcher: a tagged object, its [type] a string. *)
Record Response := { type : string; body : list (string * Js.Val) }.

Definition field (r : Response) (k : string) : Js.Val := Js.assoc k (body r).

(** [interface IoProvider]; both members are awaited by the caller.
    [getBaseEntries] yields a finite sequence of batches, [getText]
    resolves with a text or rejects. *)
Module IoProvider.
Record t := {
  getBaseEntries : Oid -> list (list BaseEntry);
  getText : Oid -> string -> Js.Thrown + string
}.
End IoProvider.

(** What the wrapper did to the outside, oldest first. *)
Inductive Event :=
| Sent (req : Js.Val)
| BaseEntriesOf (oid : Js.Val)
| TextOf (oid : Js.Val) (path : string).

(** The paths whose text a stretch of history fetched; [reset] fetches a
    text only as the second argument of an [openTextFile] call. *)
Definition fetched (h : list Event) : list string :=
  omap (fun ev => match ev with TextOf _ path => Some path | _ => None end) h.

Definition base_entries_requested (h : list Event) : list Js.Val :=
  omap (fun ev => match ev with BaseEntriesOf oid => Some oid | _ => None end) h.

Definition requests_of_type (t : string) (h : list Event) : list Js.Val :=
  omap (fun ev => match ev with
                  | Sent req =>
                    match Js.get req "type" with
                    | Js.Str t' => if String.eqb t t' then Some req else None
                    | _ => None
                    end
                  | _ => None
                  end) h.

(** How a piece of code ends. [Fuel] is not a JavaScript outcome: it marks
    a run of the model that was cut by its step budget. *)
Inductive Completion (A : Type) : Type :=
| Normal (a : A)
| Throw (e : Js.Thrown)
| Fuel.
Arguments Normal {A} a.
Arguments Throw {A} e.
Arguments Fuel {A}.

(** ** State and exception monad *)

Definition M (St A : Type) : Type := St -> Completion A * St.

Definition ret {St A} (a : A) : M St A := fun s => (Normal a, s).

Definition throw {St A} (e : Js.Thrown) : M St A := fun s => (Throw e, s).

Definition bind {St A B} (c : M St A) (k : A -> M St B) : M St B :=
  fun s =>
    match c s with
    | (Normal a, s') => k a s'
    | (Throw e, s') => (Throw e, s')
    | (Fuel, s') => (Fuel, s')
    end.

Notation "x <- c ;; k" := (bind c (fun x => k))
  (at level 100, c at next level, right associativity).
Notation "c ;;; k" := (bind c (fun _ => k))
  (at level 100, right associativity).

(** ** The module: [server], [request] and [class WorkTree] *)

Section Wrapper.

(** The dispatcher behind [server.request]. *)
Context {State : Type} (serve : State -> Js.Val -> Response * State).

(** Members that [reset] calls but the class does not define:
    [this.tree.getUnsavedPaths()], [newTree.hasPath(path)] and
    [newTree.startEpoch(newHead, this.tree)]. They are taken as parameters, the first two
    as queries of the state behind the dispatcher. *)
Context (getUnsavedPaths : State -> list string)
        (hasPath : State -> Js.Val -> string -> bool)
        (startEpoch : Js.Val -> Oid -> State -> Completion Js.Val * State).

(** What the rest of the program does to that state while an [await] has
    the running function suspended. *)
Context (meanwhile : State -> State).

(** Process state once [init()] has set [server]. *)
Record World := {
  server : State;
  rootFileId : Js.Val;          (* static WorkTree.rootFileId *)
  head : option Js.Val;         (* what the identifier `head` is bound to
                                   outside any function, if anything *)
  history : list Event
}.

Definition with_server (st : State) (w : World) : World :=
  {| server := st; rootFileId := rootFileId w; head := head w;
     history := history w |}.

Definition with_rootFileId (v : Js.Val) (w : World) : World :=
  {| server := server w; rootFileId := v; head := head w;
     history := history w |}.

Definition with_history (h : list Event) (w : World) : World :=
  {| server := server w; rootFileId := rootFileId w; head := head w;
     history := h |}.

Definition log (ev : Event) : M World unit := fun w =>
  (Normal tt, with_history (history w ++ [ev]) w).

Definition query {A} (q : State -> A) : M World A := fun w =>
  (Normal (q (server w)), w).

Definition external {A} (f : State -> Completion A * State) : M World A :=
  fun w => let (r, st) := f (server w) in (r, with_server st w).

(** [await p]: the function is suspended, other code runs, then the
    promise's outcome is delivered. *)
Definition suspend : M World unit := fun w =>
  (Normal tt, with_server (meanwhile (server w)) w).

Definition await {A} (p : Js.Thrown + A) : M World A :=
  suspend ;;;
  match p with
  | inl e => throw e
  | inr a => ret a
  end.

(** [for await (const x of xs) body]: one suspension per element and one
    for the end of the sequence. *)
Fixpoint for_await {A} (xs : list A) (body : A -> M World unit) : M World unit :=
  match xs with
  | [] => suspend
  | x :: rest => suspend ;;; body x ;;; for_await rest body
  end.

(** [server.request(req)] *)
Definition server_request (req : Js.Val) : M World Response := fun w =>
  let (response, st) := serve (server w) req in
  (Normal response, with_history (history w ++ [Sent req]) (with_server st w)).

(** [function request(req)] *)
Definition request (req : Js.Val) : M World Response :=
  response <- server_request req ;;
  if String.eqb (type response) "Error"
  then throw (Js.Error (field response "message"))
  else ret response.

(** *** [class WorkTree] *)

(** The fields the constructor assigns. *)
Record WorkTree := { id : Js.Val; replicaId : Z; io : IoProvider.t }.

(** [static getRootFileId()] *)
Definition getRootFileId : M World FileId :=
  cached <- (fun w => (Normal (rootFileId w), w)) ;;
  (if negb (Js.truthy cached)
   then
     response <- request (Js.Obj [("type", Js.Str "GetRootFileId")]) ;;
     (fun w => (Normal tt, with_rootFileId (field response "file_id") w))
   else ret tt) ;;;
  (fun w => (Normal (rootFileId w), w)).

(** [constructor(replicaId, io)] *)
Definition new_WorkTree (replicaId : Z) (io : IoProvider.t) : M World WorkTree :=
  if replicaId <=? 0
  then throw (Js.Error (Js.Str "Replica id must be positive"))
  else
    response <- request (Js.Obj [("type", Js.Str "CreateWorkTree");
                                 ("replica_id", Js.Num replicaId)]) ;;
    ret {| id := field response "tree_id"; replicaId := replicaId; io := io |}.

Definition getVersion (this : WorkTree) : M World Version :=
  response <- request (Js.Obj [("tree_id", id this);
                               ("type", Js.Str "GetVersion")]) ;;
  ret (field response "version").

Definition appendBaseEntries (this : WorkTree) (baseEntries : list BaseEntry)
  : M World Js.Val :=
  response <- request (Js.Obj [("type", Js.Str "AppendBaseEntries");
                               ("tree_id", id this);
                               ("entries", Js.Arr (BaseEntry_val <$> baseEntries))]) ;;
  ret (field response "operations").

Definition applyOps (this : WorkTree) (operations : list Operation)
  : M World Js.Val :=
  response <- request (Js.Obj [("type", Js.Str "ApplyOperations");
                               ("tree_id", id this);
                               ("operations", Js.Arr operations)]) ;;
  ret (field response "operations").

Definition newTextFile (this : WorkTree) : M World (FileId * Operation) :=
  response <- request (Js.Obj [("type", Js.Str "NewTextFile");
                               ("tree_id", id this)]) ;;
  ret (field response "file_id", field response "operation").

Definition createDirectory (this : WorkTree) (parentId : FileId) (name : string)
  : M World (FileId * Operation) :=
  response <- request (Js.Obj [("type", Js.Str "CreateDirectory");
                               ("tree_id", id this);
                               ("parent_id", parentId);
                               ("name", Js.Str name)]) ;;
  ret (field response "file_id", field response "operation").

Definition rename (this : WorkTree) (fileId newParentId : FileId) (newName : string)
  : M World Operation :=
  response <- request (Js.Obj [("type", Js.Str "Rename");
                               ("tree_id", id this);
                               ("file_id", fileId);
                               ("new_parent_id", newParentId);
                               ("new_name", Js.Str newName)]) ;;
  ret (field response "operation").

Definition remove (this : WorkTree) (fileId : FileId) : M World Operation :=
  response <- request (Js.Obj [("type", Js.Str "Remove");
                               ("tree_id", id this);
                               ("file_id", fileId)]) ;;
  ret (field response "operation").

Definition fileIdForPath (this : WorkTree) (path : string) : M World FileId :=
  response <- request (Js.Obj [("type", Js.Str "FileIdForPath");
                               ("tree_id", id this);
                               ("path", Js.Str path)]) ;;
  ret (field response "file_id").

Definition pathForFileId (this : WorkTree) (fileId : FileId) : M World Js.Val :=
  response <- request (Js.Obj [("type", Js.Str "PathForFileId");
                               ("tree_id", id this);
                               ("file_id", fileId)]) ;;
  ret (field response "path").

(** [entries(options?)]; an omitted argument is [undefined]. *)
Definition entries (this : WorkTree) (options : Js.Val) : M World Js.Val :=
  let '(showDeleted, descendInto) :=
    if Js.truthy options
    then (Js.or (Js.get options "showDeleted") (Js.Bool false),
          Js.or (Js.get options "descendInto") Js.Null)
    else (Js.Bool false, Js.Null) in
  response <- request (Js.Obj [("type", Js.Str "Entries");
                               ("tree_id", id this);
                               ("show_deleted", showDeleted);
                               ("descend_into", descendInto)]) ;;
  ret (field response "entries").

Definition openTextFile (this : WorkTree) (fileId : FileId) (baseText : string)
  : M World BufferId :=
  response <- request (Js.Obj [("type", Js.Str "OpenTextFile");
                               ("tree_id", id this);
                               ("file_id", fileId);
                               ("base_text", Js.Str baseText)]) ;;
  ret (field response "buffer_id").

Definition getText (this : WorkTree) (bufferId : BufferId) : M World Js.Val :=
  response <- request (Js.Obj [("type", Js.Str "GetText");
                               ("tree_id", id this);
                               ("buffer_id", bufferId)]) ;;
  ret (field response "text").

Definition edit (this : WorkTree) (bufferId : BufferId) (ranges : list Range)
    (newText : string) : M World Operation :=
  response <- request (Js.Obj [("type", Js.Str "Edit");
                               ("tree_id", id this);
                               ("buffer_id", bufferId);
                               ("ranges", Js.Arr (Range_val <$> ranges));
                               ("new_text", Js.Str newText)]) ;;
  ret (field response "operation").

Definition changesSince (this : WorkTree) (bufferId : BufferId) (version : Version)
  : M World Js.Val :=
  response <- request (Js.Obj [("type", Js.Str "ChangesSince");
                               ("tree_id", id this);
                               ("buffer_id", bufferId);
                               ("version", version)]) ;;
  ret (field response "changes").

(** [n] calls of [WorkTree.getRootFileId()], from whichever callers. Between
    two calls other code runs; it cannot assign the private static field,
    and what it does to the dispatcher is [other k]. The result lists what
    the calls returned. *)
Fixpoint getRootFileId_calls (other : nat -> State -> State) (n : nat)
  : M World (list FileId) :=
  match n with
  | O => ret []
  | S n' =>
    v <- getRootFileId ;;
    (fun w => (Normal tt, with_server (other n' (server w)) w)) ;;;
    vs <- getRootFileId_calls other n' ;;
    ret (v :: vs)
  end.

(** *** [reset] *)

(** The values of [this.nextResetId]. The class has no declaration and no
    initialiser for it and the constructor does not assign it, so on a new
    object the property is absent and reads as undefined. The [++] in the
    first line of [reset] is the only write there is. *)
Inductive ResetId :=
| Unassigned   (* the property is absent: undefined *)
| NaN.         (* the number NaN *)

(** [++x]: the operand is converted to a number and 1 is added.
    ToNumber(undefined) is NaN, and NaN + 1 is NaN. *)
Definition increment (x : ResetId) : ResetId :=
  match x with
  | Unassigned => NaN
  | NaN => NaN
  end.

(** [x == y]: undefined equals undefined; NaN equals nothing, itself
    included. *)
Definition loosely_equal (x y : ResetId) : bool :=
  match x, y with
  | Unassigned, Unassigned => true
  | _, _ => false
  end.

(** [reset] also reads and writes the object it is called on. *)
Record Machine := {
  world : World;
  this : WorkTree;
  nextResetId : ResetId   (* this.nextResetId *)
}.

Definition on_world {A} (c : M World A) : M Machine A := fun m =>
  let (r, w) := c (world m) in
  (r, {| world := w; this := this m; nextResetId := nextResetId m |}).

(** [const resetId = ++this.nextResetId] *)
Definition reset_stamp : M Machine ResetId := fun m =>
  let n := increment (nextResetId m) in
  (Normal n, {| world := world m; this := this m; nextResetId := n |}).

(** The identifier [head] where [reset] uses it: [reset] has no parameter
    or local of that name, so it is looked up outside the function. *)
Definition free_head : M World Js.Val := fun w =>
  match head w with
  | Some v => (Normal v, w)
  | None => (Throw (Js.ReferenceError "head"), w)
  end.

(** [const newTree = new WorkTree(this.replicaId, this.io);
     for await (const entries of this.io.getBaseEntries(head))
       newTree.appendBaseEntries(entries);] *)
Definition reset_build (this : WorkTree) : M World WorkTree :=
  newTree <- new_WorkTree (replicaId this) (io this) ;;
  oid <- free_head ;;
  log (BaseEntriesOf oid) ;;;
  for_await (IoProvider.getBaseEntries (io this) oid)
            (fun entries => appendBaseEntries newTree entries ;;; ret tt) ;;;
  ret newTree.

(** The body of the [if] in the loop:
    [yielded = true;
     newTree.openTextFile(newTree.fileIdForPath(path),
                          await this.io.getText(newHead, path));] *)
Definition reset_open (this newTree : WorkTree) (newHead : Oid) (path : string)
  : M World bool :=
  fileId <- fileIdForPath newTree path ;;
  log (TextOf newHead path) ;;;
  text <- await (IoProvider.getText (io this) newHead path) ;;
  openTextFile newTree fileId text ;;;
  ret true.

(** One [for (const path of ...)] loop over the paths of a pass. *)
Fixpoint reset_pass (this newTree : WorkTree) (newHead : Oid)
    (paths : list string) (processedPaths : gset string) (yielded : bool)
  : M World (gset string * bool) :=
  match paths with
  | [] => ret (processedPaths, yielded)
  | path :: rest =>
    todo <-
      (if bool_decide (path ∈ processedPaths) then ret false
       else query (fun st => hasPath st (id newTree) path)) ;;
    yielded' <-
      (if todo then reset_open this newTree newHead path else ret yielded) ;;
    reset_pass this newTree newHead rest ({[path]} ∪ processedPaths) yielded'
  end.

(** A pass: [let yielded = false; for (const path of
    this.tree.getUnsavedPaths()) ...]. *)
Definition reset_one_pass (this newTree : WorkTree) (newHead : Oid)
    (processedPaths : gset string) : M World (gset string * bool) :=
  paths <- query getUnsavedPaths ;;
  reset_pass this newTree newHead paths processedPaths false.

(** [while (true) { pass; if (!yielded) break; }] with a bound on the
    number of passes. *)
Fixpoint reset_reopen (fuel : nat) (this newTree : WorkTree) (newHead : Oid)
    (processedPaths : gset string) : M World unit :=
  match fuel with
  | O => fun w => (Fuel, w)
  | S fuel' =>
    r <- reset_one_pass this newTree newHead processedPaths ;;
    if r.2
    then reset_reopen fuel' this newTree newHead r.1
    else ret tt
  end.

(** What the loop does before its last pass: [n] passes in a row, each of
    which ended with [yielded] set. *)
Inductive progress_passes (this newTree : WorkTree) (newHead : Oid)
  : nat -> gset string -> World -> gset string -> World -> Prop :=
| progress_none P w : progress_passes this newTree newHead 0 P w P w
| progress_more n P w P1 w1 P' w' :
    reset_one_pass this newTree newHead P w = (Normal (P1, true), w1) ->
    progress_passes this newTree newHead n P1 w1 P' w' ->
    progress_passes this newTree newHead (S n) P w P' w'.

(** The paths opened between two states of the process. *)
Definition opened_between (w w' : World) : list string :=
  fetched (drop (length (history w)) (history w')).

(** [if (resetId == this.nextResetId) { let ops = newTree.startEpoch(newHead,
    this.tree); this.id = newTree.id; return ops; } else { return []; }] *)
Definition reset_finish (resetId : ResetId) (newTree : WorkTree) (newHead : Oid)
  : M Machine Js.Val := fun m =>
  if loosely_equal resetId (nextResetId m)
  then
    (ops <- on_world (external (startEpoch (id newTree) newHead)) ;;
     (fun m => (Normal ops,
                {| world := world m;
                   this := {| id := id newTree; replicaId := replicaId (this m);
                              io := io (this m) |};
                   nextResetId := nextResetId m |}))) m
  else (Normal (Js.Arr []), m).

(** [async reset(newHead)] with no other [reset] of the same object
    running during its suspensions. *)
Definition reset (fuel : nat) (newHead : Oid) : M Machine Js.Val :=
  resetId <- reset_stamp ;;
  self <- (fun m => (Normal (this m), m)) ;;
  newTree <- on_world (reset_build self) ;;
  on_world (reset_reopen fuel self newTree newHead ∅) ;;;
  reset_finish resetId newTree newHead.

(** *** Overlapping calls of [reset] on one object

    An asynchronous function runs up to its next [await], then other code
    runs. [reset] writes [this.nextResetId] only in its first statement and
    [this.id] only in its last [if]; everything between works on a tree of
    its own and on the outside world. So a run of the process is a sequence
    of the following steps. *)

Record Frame := { resetId : ResetId; newHead : Oid }.

Inductive Step :=
| Start (newHead : Oid)
    (* reset(newHead) is called: [const resetId = ++this.nextResetId] *)
| Between (f : World -> World)
    (* any other stretch of code: the middle of some reset, other callers *)
| Finish (k : nat) (newTree : WorkTree)
    (* the k-th call in flight arrives at its last [if] with its newTree *)
| Reject (k : nat).
    (* the k-th call in flight ends by a throw before its last [if] *)

Inductive Obs :=
| Started (resetId : ResetId)
| Finished (resetId : ResetId) (result : Completion Js.Val)
    (id_before id_after : Js.Val)
| Rejected (resetId : ResetId).

Record Sys := {
  machine : Machine;
  inflight : list Frame;     (* calls of reset not yet settled, oldest first *)
  transcript : list Obs
}.

Definition boot (m : Machine) : Sys :=
  {| machine := m; inflight := []; transcript := [] |}.

Definition sys_step (ev : Step) (s : Sys) : Sys :=
  match ev with
  | Start newHead =>
    match reset_stamp (machine s) with
    | (Normal r, m) =>
      {| machine := m;
         inflight := inflight s ++ [{| resetId := r; newHead := newHead |}];
         transcript := transcript s ++ [Started r] |}
    | _ => s
    end
  | Between f =>
    {| machine := {| world := f (world (machine s)); this := this (machine s);
                     nextResetId := nextResetId (machine s) |};
       inflight := inflight s; transcript := transcript s |}
  | Finish k newTree =>
    match inflight s !! k with
    | Some fr =>
      let (result, m) := reset_finish (resetId fr) newTree (newHead fr) (machine s) in
      {| machine := m; inflight := delete k (inflight s);
         transcript := transcript s ++
           [Finished (resetId fr) result (id (this (machine s))) (id (this m))] |}
    | None => s
    end
  | Reject k =>
    match inflight s !! k with
    | Some fr =>
      {| machine := machine s; inflight := delete k (inflight s);
         transcript := transcript s ++ [Rejected (resetId fr)] |}
    | None => s
    end
  end.

Fixpoint sys_run (evs : list Step) (s : Sys) : Sys :=
  match evs with
  | [] => s
  | ev :: rest => sys_run rest (sys_step ev s)
  end.

(** What holds of a run started on machine [m0]: every call in flight and
    every call started carries NaN, every call that arrived at its last
    [if] returned the empty list and left [this.id] alone, and the object
    is the one the run started with. *)
Record sys_inv (m0 : Machine) (s : Sys) : Prop := {
  inv_inflight : Forall (fun fr => resetId fr = NaN) (inflight s);
  inv_started : forall i r, transcript s !! i = Some (Started r) -> r = NaN;
  inv_finished : forall k r res a b,
    transcript s !! k = Some (Finished r res a b) ->
    r = NaN ∧ res = Normal (Js.Arr []) ∧ b = a;
  inv_this : this (machine s) = this m0
}.

End Wrapper.

Arguments World : clear implicits.
Arguments Machine : clear implicits.
Arguments Sys : clear implicits.
Arguments sys_inv {State} m0 s.

(** The five calls that change the tree or a buffer, and the operations
    each call hands back to its caller. *)
Inductive Mutation :=
| NewTextFile
| CreateDirectory (parentId : FileId) (name : string)
| Rename (fileId newParentId : FileId) (newName : string)
| Remove (fileId : FileId)
| Edit (bufferId : BufferId) (ranges : list Range) (newText : string).

Definition perform {State} (serve : State -> Js.Val -> Response * State)
    (this : WorkTree) (c : Mutation) : M (World State) (list Operation) :=
  match c with
  | NewTextFile => r <- newTextFile serve this ;; ret [r.2]
  | CreateDirectory parentId name =>
    r <- createDirectory serve this parentId name ;; ret [r.2]
  | Rename fileId newParentId newName =>
    op <- rename serve this fileId newParentId newName ;; ret [op]
  | Remove fileId => op <- remove serve this fileId ;; ret [op]
  | Edit bufferId ranges newText =>
    op <- edit serve this bufferId ranges newText ;; ret [op]
  end.

(** ** Vocabulary for the further properties *)

(** The instance methods that are one request each, with their arguments. *)
Inductive Call :=
| GetVersion
| AppendBaseEntries (baseEntries : list BaseEntry)
| ApplyOps (operations : list Operation)
| CallNewTextFile
| CallCreateDirectory (parentId : FileId) (name : string)
| CallRename (fileId newParentId : FileId) (newName : string)
| CallRemove (fileId : FileId)
| FileIdForPath (path : string)
| PathForFileId (fileId : FileId)
| Entries (options : Js.Val)
| OpenTextFile (fileId : FileId) (baseText : string)
| GetText (bufferId : BufferId)
| CallEdit (bufferId : BufferId) (ranges : list Range) (newText : string)
| ChangesSince (bufferId : BufferId) (version : Version).

(** The call itself; what it returns is listed component by component. *)
Definition invoke {State} (serve : State -> Js.Val -> Response * State)
    (this : WorkTree) (c : Call) : M (World State) (list Js.Val) :=
  match c with
  | GetVersion => v <- getVersion serve this ;; ret [v]
  | AppendBaseEntries baseEntries =>
    v <- appendBaseEntries serve this baseEntries ;; ret [v]
  | ApplyOps operations => v <- applyOps serve this operations ;; ret [v]
  | CallNewTextFile => r <- newTextFile serve this ;; ret [r.1; r.2]
  | CallCreateDirectory parentId name =>
    r <- createDirectory serve this parentId name ;; ret [r.1; r.2]
  | CallRename fileId newParentId newName =>
    v <- rename serve this fileId newParentId newName ;; ret [v]
  | CallRemove fileId => v <- remove serve this fileId ;; ret [v]
  | FileIdForPath path => v <- fileIdForPath serve this path ;; ret [v]
  | PathForFileId fileId => v <- pathForFileId serve this fileId ;; ret [v]
  | Entries options => v <- entries serve this options ;; ret [v]
  | OpenTextFile fileId baseText =>
    v <- openTextFile serve this fileId baseText ;; ret [v]
  | GetText bufferId => v <- getText serve this bufferId ;; ret [v]
  | CallEdit bufferId ranges newText =>
    v <- edit serve this bufferId ranges newText ;; ret [v]
  | ChangesSince bufferId version =>
    v <- changesSince serve this bufferId version ;; ret [v]
  end.

(** The type tag each method puts on its request and the members of the
    response it hands back, as the source spells them. *)
Definition request_type (c : Call) : string :=
  match c with
  | GetVersion => "GetVersion"
  | AppendBaseEntries _ => "AppendBaseEntries"
  | ApplyOps _ => "ApplyOperations"
  | CallNewTextFile => "NewTextFile"
  | CallCreateDirectory _ _ => "CreateDirectory"
  | CallRename _ _ _ => "Rename"
  | CallRemove _ => "Remove"
  | FileIdForPath _ => "FileIdForPath"
  | PathForFileId _ => "PathForFileId"
  | Entries _ => "Entries"
  | OpenTextFile _ _ => "OpenTextFile"
  | GetText _ => "GetText"
  | CallEdit _ _ _ => "Edit"
  | ChangesSince _ _ => "ChangesSince"
  end.

Definition returned_members (c : Call) : list string :=
  match c with
  | GetVersion => ["version"]
  | AppendBaseEntries _ | ApplyOps _ => ["operations"]
  | CallNewTextFile | CallCreateDirectory _ _ => ["file_id"; "operation"]
  | CallRename _ _ _ | CallRemove _ | CallEdit _ _ _ => ["operation"]
  | FileIdForPath _ => ["file_id"]
  | PathForFileId _ => ["path"]
  | Entries _ => ["entries"]
  | OpenTextFile _ _ => ["buffer_id"]
  | GetText _ => ["text"]
  | ChangesSince _ _ => ["changes"]
  end.

(** The request by which a batch of base entries goes to a tree. *)
Definition append_request (tree : Js.Val) (entries : list BaseEntry) : Js.Val :=
  Js.Obj [("type", Js.Str "AppendBaseEntries"); ("tree_id", tree);
          ("entries", Js.Arr (BaseEntry_val <$> entries))].

Definition appends (tree : Js.Val) (batches : list (list BaseEntry)) : list Event :=
  (fun entries => Sent (append_request tree entries)) <$> batches.

(** What the loop of [reset] may do to the outside: ask the new tree for
    the file id of a path, fetch a text at [newHead], open a buffer on the
    new tree. *)
Definition reopen_event (newTree : WorkTree) (newHead : Oid) (ev : Event) : Prop :=
  match ev with
  | Sent req =>
    Js.get req "tree_id" = id newTree
    ∧ (Js.get req "type" = Js.Str "FileIdForPath"
       ∨ Js.get req "type" = Js.Str "OpenTextFile")
  | TextOf oid _ => oid = newHead
  | BaseEntriesOf _ => False
  end.

(** What [reset] may do to the outside once it has created its tree. *)
Definition reset_event (newTreeId : Js.Val) (newHead : Oid)
    (bound : option Js.Val) (ev : Event) : Prop :=
  match ev with
  | Sent req => Js.get req "tree_id" = newTreeId
  | TextOf oid _ => oid = newHead
  | BaseEntriesOf oid => bound = Some oid
  end.

(** ** A small dispatcher and provider to run the model on *)

Module Demo.

(** Counts the requests it has served and uses the count as handle. Paths
    under [gone/] are unknown to it. *)
Definition serve (n : nat) (req : Js.Val) : Response * nat :=
  let reply t fields := ({| type := t; body := fields |}, S n) in
  match Js.get req "type" with
  | Js.Str t =>
    if String.eqb t "GetRootFileId" then reply t [("file_id", Js.Str "root")]
    else if String.eqb t "CreateWorkTree" then reply t [("tree_id", Js.Num (Z.of_nat n))]
    else if String.eqb t "FileIdForPath" then
      match Js.get req "path" with
      | Js.Str p =>
        if String.prefix "gone/" p
        then reply "Error" [("message", Js.Str "not found")]
        else reply t [("file_id", Js.Str p)]
      | _ => reply "Error" [("message", Js.Str "bad path")]
      end
    else reply t [("file_id", Js.Str "f"); ("operation", Js.Str "op");
                  ("operations", Js.Arr [Js.Str "op"]);
                  ("buffer_id", Js.Str "b"); ("entries", Js.Arr [])]
  | _ => reply "Error" [("message", Js.Str "bad request")]
  end.

Definition provider : IoProvider.t :=
  {| IoProvider.getBaseEntries := fun oid =>
       [[{| be_depth := 0; be_name := "src"; be_type := Directory |}];
        [{| be_depth := 1; be_name := "a.txt"; be_type := Text |}]];
     IoProvider.getText := fun oid path => inr ("text of " ++ path)%string |}.

Definition getUnsavedPaths (n : nat) : list string :=
  if (n <? 2)%nat then ["src/a.txt"; "src/a.txt"] else ["src/a.txt"; "src/b.txt"].

Definition hasPath (n : nat) (tree : Js.Val) (path : string) : bool := true.

Definition startEpoch (tree : Js.Val) (oid : Oid) (n : nat)
  : Completion Js.Val * nat :=
  (Normal (Js.Arr [Js.Str "epoch"]), S n).

Definition meanwhile (n : nat) : nat := n.

Definition w0 : World nat :=
  {| server := 0%nat; rootFileId := Js.Undefined; head := None; history := [] |}.

Definition tree : WorkTree := {| id := Js.Num 7; replicaId := 1; io := provider |}.

Definition m0 : Machine nat :=
  {| world := w0; this := tree; nextResetId := Unassigned |}.

(** A dispatcher whose root file id is the empty string. *)
Definition blank_serve (n : nat) (req : Js.Val) : Response * nat :=
  ({| type := "GetRootFileId"; body := [("file_id", Js.Str "")] |}, S n).

(** A dispatcher that refuses the first request it gets and answers like
    [serve] from then on. *)
Definition flaky_serve (n : nat) (req : Js.Val) : Response * nat :=
  match n with
  | O => ({| type := "Error"; body := [("message", Js.Str "not ready")] |}, 1%nat)
  | S _ => serve n req
  end.

(** A dispatcher that refuses the third request it gets. *)
Definition strict_serve (n : nat) (req : Js.Val) : Response * nat :=
  if (n =? 2)%nat
  then ({| type := "Error"; body := [("message", Js.Str "refused")] |}, S n)
  else serve n req.

(** A process in which something outside [reset] binds [head]. *)
Definition w2 : World nat :=
  {| server := 0%nat; rootFileId := Js.Undefined;
     head := Some (Js.Str "old-head"); history := [] |}.

End Demo.

(** ** Properties *)

Section WrapperSpec.

Context {State : Type} (serve : State -> Js.Val -> Response * State).

Lemma request_run (req : Js.Val) (w : World State) :
  request serve req w =
  (if String.eqb (type (serve (server w) req).1) "Error"
   then Throw (Js.Error (field (serve (server w) req).1 "message"))
   else Normal (serve (server w) req).1,
   with_history (history w ++ [Sent req])
     (with_server (serve (server w) req).2 w)).
Proof.
  unfold request, bind, server_request.
  destruct (serve (server w) req) as [response st]; simpl.
  destruct (String.eqb (type response) "Error"); reflexivity.
Qed.

(** C5. Whatever is sent through [request], the helper throws exactly when
    the dispatcher's response has type "Error", the thrown error is built
    from the response's message, and any other response is returned as it
    is. The throw is the completion of the very call that sent the request,
    which has been sent exactly once. *)
Theorem request_throws_iff_error (req : Js.Val) (w : World State) :
  let response := (serve (server w) req).1 in
  let outcome := (request serve req w).1 in
  history (request serve req w).2 = history w ++ [Sent req]
  ∧ ((exists e, outcome = Throw e) <-> type response = "Error")
  ∧ (type response = "Error" ->
     outcome = Throw (Js.Error (field response "message")))
  ∧ (type response <> "Error" -> outcome = Normal response).
Proof.
  intros response outcome. subst response outcome.
  rewrite request_run; simpl.
  destruct (String.eqb_spec (type (serve (server w) req).1) "Error") as [E|E].
  - repeat split; eauto; congruence.
  - repeat split; try congruence. intros [e He]. discriminate.
Qed.

Lemma bind_request_run {A} (req : Js.Val) (k : Response -> M (World State) A)
    (w : World State) :
  bind (request serve req) k w =
  let response := (serve (server w) req).1 in
  let w' := with_history (history w ++ [Sent req])
              (with_server (serve (server w) req).2 w) in
  if String.eqb (type response) "Error"
  then (Throw (Js.Error (field response "message")), w')
  else k response w'.
Proof.
  unfold bind at 1. rewrite request_run. simpl.
  destruct (String.eqb (type (serve (server w) req).1) "Error"); reflexivity.
Qed.

Lemma call_run {A} (req : Js.Val) (f : Response -> A) (w : World State) :
  (response <- request serve req ;; ret (f response)) w =
  (if String.eqb (type (serve (server w) req).1) "Error"
   then Throw (Js.Error (field (serve (server w) req).1 "message"))
   else Normal (f (serve (server w) req).1),
   with_history (history w ++ [Sent req])
     (with_server (serve (server w) req).2 w)).
Proof.
  rewrite bind_request_run. cbn zeta.
  destruct (String.eqb _ "Error"); reflexivity.
Qed.

Lemma map_run {St A B} (c : M St A) (g : A -> B) (s : St) :
  (r <- c ;; ret (g r)) s =
  (match (c s).1 with
   | Normal a => Normal (g a)
   | Throw e => Throw e
   | Fuel => Fuel
   end, (c s).2).
Proof. unfold bind, ret. destruct (c s) as [[a|e|] s']; reflexivity. Qed.

(** C6. Each of newTextFile, createDirectory, rename, remove and edit sends
    one request and then either throws, handing no operation to its caller
    (the dispatcher answered with an error), or returns normally with
    exactly one operation, the one of the dispatcher's response. *)
Theorem mutation_one_operation_or_throw (this : WorkTree) (c : Mutation)
    (w : World State) :
  exists req,
    let response := (serve (server w) req).1 in
    let run := perform serve this c w in
    history run.2 = history w ++ [Sent req]
    ∧ ((type response = "Error"
        ∧ run.1 = Throw (Js.Error (field response "message")))
       ∨ (type response <> "Error"
          ∧ run.1 = Normal [field response "operation"]
          ∧ length [field response "operation"] = 1%nat)).
Proof.
  destruct c;
    unfold perform, newTextFile, createDirectory, rename, remove, edit;
    rewrite map_run, call_run;
    match goal with |- context [serve (server w) ?r] => exists r end;
    cbn zeta; simpl;
    (split; [reflexivity|]);
    match goal with
    | |- context [String.eqb (type ?r) "Error"] =>
      destruct (String.eqb_spec (type r) "Error") as [E|E]
    end; [left|right|left|right|left|right|left|right|left|right]; auto.
Qed.

(** C7, as the code has it. The NewTextFile request is made of the type tag
    and the tree handle only: it has no parent and no name, and the call
    takes none. On a response that is not an error the call returns the
    response's file id and operation. CreateDirectory is the request that
    carries the parent and the name it was given. *)
Theorem newTextFile_request_has_handle_only (this : WorkTree) (w : World State) :
  let req := Js.Obj [("type", Js.Str "NewTextFile"); ("tree_id", id this)] in
  let response := (serve (server w) req).1 in
  let run := newTextFile serve this w in
  history run.2 = history w ++ [Sent req]
  ∧ Js.has_field req "parent_id" = false
  ∧ Js.has_field req "name" = false
  ∧ (if String.eqb (type response) "Error"
     then run.1 = Throw (Js.Error (field response "message"))
     else run.1 = Normal (field response "file_id", field response "operation"))
  ∧ forall parentId name, exists req',
      history (createDirectory serve this parentId name w).2
      = history w ++ [Sent req']
      ∧ Js.get req' "tree_id" = id this
      ∧ Js.get req' "parent_id" = parentId
      ∧ Js.get req' "name" = Js.Str name.
Proof.
  cbn zeta. unfold newTextFile, createDirectory.
  rewrite bind_request_run. cbn zeta.
  repeat split.
  - destruct (String.eqb _ "Error"); reflexivity.
  - destruct (String.eqb _ "Error"); reflexivity.
  - intros parentId name. eexists. rewrite bind_request_run. cbn zeta.
    split; [destruct (String.eqb _ "Error"); reflexivity|].
    repeat split.
Qed.

(** C10. The Entries request carries [show_deleted: false] when the options
    are omitted or [showDeleted] is absent or falsy, and [descend_into:
    null] when the options are omitted or [descendInto] is absent or
    falsy; a truthy option is passed on as it is. *)
Theorem entries_defaults (this : WorkTree) (options : Js.Val) (w : World State) :
  exists req,
    history (entries serve this options w).2 = history w ++ [Sent req]
    ∧ Js.get req "type" = Js.Str "Entries"
    ∧ (options = Js.Undefined ->
       Js.get req "show_deleted" = Js.Bool false
       ∧ Js.get req "descend_into" = Js.Null)
    ∧ (Js.truthy (Js.get options "showDeleted") = false ->
       Js.get req "show_deleted" = Js.Bool false)
    ∧ (Js.truthy (Js.get options "descendInto") = false ->
       Js.get req "descend_into" = Js.Null)
    ∧ (Js.truthy options = true ->
       Js.truthy (Js.get options "showDeleted") = true ->
       Js.get req "show_deleted" = Js.get options "showDeleted")
    ∧ (Js.truthy options = true ->
       Js.truthy (Js.get options "descendInto") = true ->
       Js.get req "descend_into" = Js.get options "descendInto").
Proof.
  unfold entries.
  destruct (Js.truthy options) eqn:T.
  - cbn zeta. eexists. rewrite bind_request_run. cbn zeta.
    split; [destruct (String.eqb _ "Error"); reflexivity|].
    split; [reflexivity|]. simpl. unfold Js.or.
    repeat split; intros; subst; simpl in *; try discriminate;
      repeat match goal with H : Js.truthy _ = _ |- _ => rewrite H end;
      reflexivity.
  - cbn zeta. eexists. rewrite bind_request_run. cbn zeta.
    split; [destruct (String.eqb _ "Error"); reflexivity|].
    split; [reflexivity|]. simpl.
    repeat split; try reflexivity; try discriminate.
Qed.

(** C4. With a replica id that is zero or negative the constructor throws
    and leaves the process state as it was: nothing has been sent. With a
    positive one it sends one CreateWorkTree request carrying the replica
    id, stores the tree handle of the response in [id], and throws only if
    the dispatcher answered with an error. *)
Theorem constructor_checks_replica_id (replicaId : Z) (io : IoProvider.t)
    (w : World State) :
  let req := Js.Obj [("type", Js.Str "CreateWorkTree");
                     ("replica_id", Js.Num replicaId)] in
  let response := (serve (server w) req).1 in
  let run := new_WorkTree serve replicaId io w in
  (replicaId <= 0 ->
   run = (Throw (Js.Error (Js.Str "Replica id must be positive")), w))
  ∧ (0 < replicaId ->
     history run.2 = history w ++ [Sent req]
     ∧ (if String.eqb (type response) "Error"
        then run.1 = Throw (Js.Error (field response "message"))
        else run.1 = Normal {| id := field response "tree_id";
                               replicaId := replicaId; io := io |})).
Proof.
  cbn zeta. unfold new_WorkTree. split; intros H.
  - destruct (Z.leb_spec replicaId 0); [reflexivity|lia].
  - destruct (Z.leb_spec replicaId 0); [lia|].
    rewrite bind_request_run. cbn zeta.
    destruct (String.eqb _ "Error"); split; reflexivity.
Qed.

Lemma getRootFileId_cached (w : World State) :
  Js.truthy (rootFileId w) = true ->
  getRootFileId serve w = (Normal (rootFileId w), w).
Proof.
  intros H. unfold getRootFileId, bind. simpl. rewrite H. reflexivity.
Qed.

Lemma getRootFileId_first (w : World State) :
  let req := Js.Obj [("type", Js.Str "GetRootFileId")] in
  let response := (serve (server w) req).1 in
  Js.truthy (rootFileId w) = false ->
  type response <> "Error" ->
  getRootFileId serve w =
  (Normal (field response "file_id"),
   with_rootFileId (field response "file_id")
     (with_history (history w ++ [Sent req])
        (with_server (serve (server w) req).2 w))).
Proof.
  cbn zeta. intros H E. unfold getRootFileId.
  unfold bind at 1. simpl. rewrite H. simpl.
  unfold bind at 1. rewrite bind_request_run. cbn zeta.
  destruct (String.eqb_spec (type (serve (server w)
    (Js.Obj [("type", Js.Str "GetRootFileId")])).1) "Error"); [contradiction|].
  reflexivity.
Qed.

Lemma getRootFileId_calls_cached (other : nat -> State -> State) (n : nat) :
  forall w : World State,
    Js.truthy (rootFileId w) = true ->
    exists st,
      getRootFileId_calls serve other n w =
      (Normal (replicate n (rootFileId w)), with_server st w).
Proof.
  induction n as [|n IH]; intros w H.
  - exists (server w). destruct w; reflexivity.
  - simpl. unfold bind at 1. rewrite (getRootFileId_cached w H).
    unfold bind at 1.
    destruct (IH (with_server (other n (server w)) w) H) as [st Hst].
    unfold bind at 1. rewrite Hst. exists st. reflexivity.
Qed.

Lemma getRootFileId_calls_first (other : nat -> State -> State) (n : nat)
    (w : World State) :
  let req := Js.Obj [("type", Js.Str "GetRootFileId")] in
  let response := (serve (server w) req).1 in
  Js.truthy (rootFileId w) = false ->
  type response <> "Error" ->
  Js.truthy (field response "file_id") = true ->
  exists st,
    getRootFileId_calls serve other (S n) w =
    (Normal (replicate (S n) (field response "file_id")),
     with_server st
       (with_rootFileId (field response "file_id")
          (with_history (history w ++ [Sent req]) w))).
Proof.
  cbn zeta. intros H E T.
  simpl. unfold bind at 1. rewrite (getRootFileId_first w H E).
  unfold bind at 1. unfold bind at 1.
  match goal with
  | |- context [getRootFileId_calls serve other n ?w1] =>
    destruct (getRootFileId_calls_cached other n w1 T) as [st Hst];
    rewrite Hst
  end.
  exists st. reflexivity.
Qed.

(** C9. From a process state in which the static field holds nothing yet,
    and with a dispatcher that answers the GetRootFileId request with a
    file id (a response that is no error and whose [file_id] is truthy),
    any number of calls of [WorkTree.getRootFileId()] all return that one
    file id, only the first call sends a GetRootFileId request, and the
    value stays in the static field, which no instance owns: the method
    takes no [this]. *)
Theorem getRootFileId_requested_once (other : nat -> State -> State) (n : nat)
    (w : World State) :
  let req := Js.Obj [("type", Js.Str "GetRootFileId")] in
  let response := (serve (server w) req).1 in
  let run := getRootFileId_calls serve other n w in
  Js.truthy (rootFileId w) = false ->
  type response <> "Error" ->
  Js.truthy (field response "file_id") = true ->
  run.1 = Normal (replicate n (field response "file_id"))
  ∧ history run.2 = history w ++ match n with O => [] | S _ => [Sent req] end
  ∧ (length (requests_of_type "GetRootFileId"
              (drop (length (history w)) (history run.2))) <= 1)%nat
  ∧ (n <> O -> rootFileId run.2 = field response "file_id").
Proof.
  cbn zeta. intros H E T.
  destruct n as [|n].
  - simpl. rewrite app_nil_r, drop_all. repeat split; [simpl; lia|congruence].
  - destruct (getRootFileId_calls_first other n w H E T) as [st ->].
    simpl. rewrite drop_app_length. repeat split. simpl; lia.
Qed.

End WrapperSpec.

Arguments request : simpl never.
Arguments reset_pass : simpl nomatch.

(** ** Properties of [reset] *)

Section ResetSpec.

Context {State : Type} (serve : State -> Js.Val -> Response * State).
Context (getUnsavedPaths : State -> list string)
        (hasPath : State -> Js.Val -> string -> bool).
Context (meanwhile : State -> State).

Ltac mrun :=
  repeat first
    [ rewrite request_run
    | progress unfold bind, ret, throw, log, await, suspend, query, external
    | progress simpl ].

Lemma base_entries_requested_app (h1 h2 : list Event) :
  base_entries_requested (h1 ++ h2)
  = base_entries_requested h1 ++ base_entries_requested h2.
Proof. apply omap_app. Qed.

Lemma for_await_history {A} (body : A -> M (World State) unit) :
  (forall x w, exists evs,
      history (body x w).2 = history w ++ evs
      ∧ base_entries_requested evs = []) ->
  forall (xs : list A) (w : World State),
  exists evs,
    history (for_await meanwhile xs body w).2 = history w ++ evs
    ∧ base_entries_requested evs = [].
Proof.
  intros Hbody. induction xs as [|x rest IH]; intros w.
  - exists []. simpl. unfold suspend. simpl. by rewrite app_nil_r.
  - simpl. unfold bind, suspend.
    destruct (Hbody x (with_server (meanwhile (server w)) w)) as (evs0 & Hh0 & Hb0).
    destruct (body x (with_server (meanwhile (server w)) w)) as [[[]|e|] w1];
      simpl in *; try (by exists evs0).
    destruct (IH w1) as (evs & Hh & Hb).
    exists (evs0 ++ evs). rewrite Hh, Hh0, app_assoc, base_entries_requested_app.
    by rewrite Hb0, Hb.
Qed.

Lemma appendBaseEntries_history (newTree : WorkTree) (entries : list BaseEntry)
    (w : World State) :
  exists evs,
    history ((appendBaseEntries serve newTree entries ;;; ret tt) w).2
    = history w ++ evs
    ∧ base_entries_requested evs = [].
Proof.
  unfold appendBaseEntries. mrun.
  destruct (String.eqb _ "Error"); mrun; by eexists.
Qed.

Lemma reset_build_spec (self : WorkTree) (w : World State) :
  let built := reset_build serve meanwhile self w in
  let asked := base_entries_requested
                 (drop (length (history w)) (history built.2)) in
  match head w with
  | None => (exists e, built.1 = Throw e) ∧ asked = []
  | Some h => asked = [h] ∨ ((exists e, built.1 = Throw e) ∧ asked = [])
  end.
Proof.
  cbn zeta. unfold reset_build, new_WorkTree, free_head.
  destruct (Z.leb_spec (replicaId self) 0).
  { mrun. rewrite drop_all. destruct (head w); [right|]; eauto. }
  mrun.
  destruct (String.eqb _ "Error"); mrun.
  { rewrite drop_app_length. destruct (head w); [right|]; eauto. }
  destruct (head w) as [h|]; mrun.
  - left.
    match goal with
    | |- context [for_await _ ?xs ?body ?w1] =>
      destruct (for_await_history body
                  (appendBaseEntries_history _) xs w1) as (evs & Hh & Hb);
      destruct (for_await meanwhile xs body w1) as [[[]|e|] w2]
    end; simpl in *.
    all: rewrite Hh, <- !app_assoc, drop_app_length; simpl.
    all: by rewrite Hb.
  - rewrite drop_app_length. eauto.
Qed.

Section Build.

Context (startEpoch : Js.Val -> Oid -> State -> Completion Js.Val * State).

Lemma reset_run_build (fuel : nat) (newHead : Oid) (m : Machine State) :
  forall e w',
    reset_build serve meanwhile (this m) (world m) = (Throw e, w') ->
    reset serve getUnsavedPaths hasPath startEpoch meanwhile fuel newHead m
    = (Throw e, {| world := w'; this := this m;
                   nextResetId := increment (nextResetId m) |}).
Proof.
  intros e w' H. unfold reset, bind, reset_stamp, on_world. simpl.
  by rewrite H.
Qed.

(** C2, what the code does. While it builds the new tree, [reset] asks the
    provider for the base entries of whatever the identifier [head] is
    bound to outside the function, never for those of its argument: with
    no such binding the call throws before it asks for any base entries,
    and with [head] bound to [h] it asks for those of [h]. *)
Theorem reset_asks_for_head_not_newHead (fuel : nat) (newHead : Oid)
    (m : Machine State) :
  let run := reset serve getUnsavedPaths hasPath startEpoch meanwhile
               fuel newHead m in
  let built := reset_build serve meanwhile (this m) (world m) in
  let asked := base_entries_requested
                 (drop (length (history (world m))) (history built.2)) in
  match head (world m) with
  | None =>
    (exists e, run.1 = Throw e) ∧ world run.2 = built.2 ∧ asked = []
  | Some h =>
    asked = [h] ∨ ((exists e, run.1 = Throw e) ∧ asked = [])
  end.
Proof.
  intros run built asked.
  pose proof (reset_build_spec (this m) (world m)) as Hb. cbn zeta in Hb.
  fold built in Hb. fold asked in Hb.
  destruct (head (world m)) as [h|].
  - destruct Hb as [?|[[e He] ?]]; [by left|right].
    destruct built as [r w'] eqn:Hbuilt. simpl in He. subst r.
    subst run. rewrite (reset_run_build fuel newHead m e w' Hbuilt). eauto.
  - destruct Hb as [[e He] ?].
    destruct built as [r w'] eqn:Hbuilt. simpl in He. subst r.
    subst run. rewrite (reset_run_build fuel newHead m e w' Hbuilt). eauto.
Qed.

End Build.

Lemma fetched_app (h1 h2 : list Event) : fetched (h1 ++ h2) = fetched h1 ++ fetched h2.
Proof. apply omap_app. Qed.

(** The body of the [if] in the loop: one buffer is opened. *)
Lemma reset_open_spec (this newTree : WorkTree) (newHead : Oid) (path : string)
    (w : World State) :
  exists evs,
    history (reset_open serve meanwhile this newTree newHead path w).2 = history w ++ evs
    ∧ match (reset_open serve meanwhile this newTree newHead path w).1 with
      | Normal y => y = true ∧ fetched evs = [path]
      | Throw _ => fetched evs = [] ∨ fetched evs = [path]
      | Fuel => False
      end.
Proof.
  unfold reset_open, fileIdForPath, openTextFile.
  mrun.
  destruct (String.eqb _ "Error"); mrun.
  { eexists. split; [reflexivity|]. left; reflexivity. }
  destruct (IoProvider.getText (io this) newHead path) as [e|text]; mrun.
  { eexists. rewrite <- app_assoc. split; [reflexivity|]. right; reflexivity. }
  destruct (String.eqb _ "Error"); mrun.
  { eexists. rewrite <- !app_assoc. split; [reflexivity|]. right; reflexivity. }
  eexists. rewrite <- !app_assoc. split; [reflexivity|]. split; reflexivity.
Qed.

Lemma reset_pass_spec (this newTree : WorkTree) (newHead : Oid) (paths : list string) :
  forall (P : gset string) (y : bool) (w : World State),
  exists evs,
    history (reset_pass serve hasPath meanwhile this newTree newHead paths P y w).2
    = history w ++ evs
    ∧ NoDup (fetched evs)
    ∧ (forall p, p ∈ fetched evs -> (p ∉ P) ∧ (p ∈ paths))
    ∧ match (reset_pass serve hasPath meanwhile this newTree newHead paths P y w).1 with
      | Normal (P', y') =>
        P' = list_to_set paths ∪ P
        ∧ (y' = true <-> (y = true ∨ fetched evs <> []))
      | Throw _ => True
      | Fuel => False
      end.
Proof.
  induction paths as [|path rest IH]; intros P y w.
  - exists []. simpl. rewrite app_nil_r. split_and!.
    + reflexivity.
    + constructor.
    + intros p Hp. inversion Hp.
    + simpl. by rewrite (left_id_L ∅ (∪)).
    + split; [auto | intros [?|?]; congruence].
  - assert (Hskip : forall y0 w0 evs0,
      history w0 = history w ++ evs0 ->
      (fetched evs0 = [] ∨ (fetched evs0 = [path] ∧ path ∉ P)) ->
      (y0 = true <-> (y = true ∨ fetched evs0 <> [])) ->
      exists evs,
      history (reset_pass serve hasPath meanwhile this newTree newHead rest ({[path]} ∪ P) y0 w0).2
      = history w ++ evs
      ∧ NoDup (fetched evs)
      ∧ (forall p, p ∈ fetched evs -> (p ∉ P) ∧ (p ∈ path :: rest))
      ∧ match (reset_pass serve hasPath meanwhile this newTree newHead rest ({[path]} ∪ P) y0 w0).1 with
        | Normal (P', y') =>
          P' = list_to_set (path :: rest) ∪ P
          ∧ (y' = true <-> (y = true ∨ fetched evs <> []))
        | Throw _ => True
        | Fuel => False
        end).
    { intros y0 w0 evs0 Hw0 Hf Hy0.
      destruct (IH ({[path]} ∪ P) y0 w0) as (evs & Hh & Hnd & Hin & Hres).
      exists (evs0 ++ evs). rewrite Hh, Hw0, app_assoc, fetched_app. split_and!; auto.
      - destruct Hf as [->| [-> Hp]]; simpl; auto.
        constructor; auto. intros Hx. apply Hin in Hx. set_solver.
      - intros p Hp. apply elem_of_app in Hp as [Hp|Hp].
        + destruct Hf as [Hf| [Hf Hp']]; rewrite Hf in Hp; set_solver.
        + apply Hin in Hp. set_solver.
      - destruct (reset_pass _ _ _ _ _ _ _ _ _ _).1 as [[P' y']| |]; auto.
        destruct Hres as [-> Hy]. split; [set_solver|].
        rewrite Hy, Hy0. destruct Hf as [Hf| [Hf Hp']]; rewrite Hf; simpl.
        + intuition congruence.
        + split; [intros _; right; discriminate|intuition congruence]. }
    simpl. unfold bind at 1 3.
    case_bool_decide as Hin.
    + unfold ret, bind; cbn beta iota.
      apply (Hskip y w []); [by rewrite app_nil_r|by left|].
      split; [auto | intros [?|H]; [auto | by destruct H]].
    + unfold query. destruct (hasPath (server w) (id newTree) path).
      * unfold bind.
        destruct (reset_open_spec this newTree newHead path w) as (evs0 & Hh0 & Hr0).
        destruct (reset_open serve meanwhile this newTree newHead path w)
          as [[yb|e|] w0]; simpl in *.
        -- destruct Hr0 as [-> Hf]. apply (Hskip true w0 evs0 Hh0); [by right|].
           rewrite Hf. split; [intros _; right; discriminate|auto].
        -- exists evs0. split_and!; auto.
           ++ destruct Hr0 as [->| ->]; repeat constructor. set_solver.
           ++ intros p Hp. destruct Hr0 as [Hf|Hf]; rewrite Hf in Hp; set_solver.
        -- contradiction.
      * unfold ret, bind; cbn beta iota.
        apply (Hskip y w []); [by rewrite app_nil_r|by left|].
        split; [auto | intros [?|H]; [auto | by destruct H]].
Qed.

Lemma reset_one_pass_spec (this newTree : WorkTree) (newHead : Oid)
    (P : gset string) (w : World State) :
  exists evs,
    history (reset_one_pass serve getUnsavedPaths hasPath meanwhile
               this newTree newHead P w).2 = history w ++ evs
    ∧ NoDup (fetched evs)
    ∧ (forall p, p ∈ fetched evs ->
                 (p ∉ P) ∧ (p ∈ getUnsavedPaths (server w)))
    ∧ match (reset_one_pass serve getUnsavedPaths hasPath meanwhile
               this newTree newHead P w).1 with
      | Normal (P', y') =>
        P' = list_to_set (getUnsavedPaths (server w)) ∪ P
        ∧ (y' = true <-> fetched evs <> [])
      | Throw _ => True
      | Fuel => False
      end.
Proof.
  unfold reset_one_pass, bind, query.
  destruct (reset_pass_spec this newTree newHead (getUnsavedPaths (server w))
              P false w) as (evs & Hh & Hnd & Hin & Hres).
  exists evs. split_and!; auto.
  destruct (reset_pass _ _ _ _ _ _ _ _ _ _).1 as [[P' y']| |]; auto.
  destruct Hres as [-> Hy]. split; [reflexivity|].
  rewrite Hy. intuition congruence.
Qed.

Lemma opened_between_app (w w' : World State) (evs : list Event) :
  history w' = history w ++ evs -> opened_between w w' = fetched evs.
Proof. intros H. unfold opened_between. by rewrite H, drop_app_length. Qed.

Ltac stop_here :=
  match goal with
  | Hh : history ?w0 = history ?w ++ ?evs, Hpass : reset_one_pass _ _ _ _ _ _ _ ?P ?w = _
    |- _ =>
    exists evs; split; [exact Hh|]; split; [assumption|];
    split; [naive_solver|];
    exists 0%nat, P, w; split; [lia|]; split; [apply progress_none|];
    rewrite Hpass; simpl; split; [reflexivity|]; eauto
  end.

Section Finite.

Context (U : gset string).
Hypothesis unsaved_in_U : forall st p, p ∈ getUnsavedPaths st -> p ∈ U.

Lemma reset_reopen_spec (this newTree : WorkTree) (newHead : Oid) :
  forall (k fuel : nat) (P : gset string) (w : World State),
    (size (U ∖ P) <= k)%nat -> (k < fuel)%nat ->
    let run := reset_reopen serve getUnsavedPaths hasPath meanwhile
                 fuel this newTree newHead P w in
    exists evs,
      history run.2 = history w ++ evs
      ∧ NoDup (fetched evs)
      ∧ (forall p, p ∈ fetched evs -> p ∉ P)
      ∧ exists n P1 w1,
          (n <= k)%nat
          ∧ progress_passes serve getUnsavedPaths hasPath meanwhile
              this newTree newHead n P w P1 w1
          ∧ let last := reset_one_pass serve getUnsavedPaths hasPath meanwhile
                          this newTree newHead P1 w1 in
            run.2 = last.2
            ∧ ((exists P', last.1 = Normal (P', false) ∧ run.1 = Normal tt)
               ∨ (exists e, last.1 = Throw e ∧ run.1 = Throw e)).
Proof.
  induction k as [|k IH]; intros fuel P w Hk Hfuel; cbn zeta.
  all: destruct fuel as [|fuel]; [lia|]; simpl; unfold bind.
  all: destruct (reset_one_pass_spec this newTree newHead P w)
         as (evs0 & Hh0 & Hnd0 & Hin0 & Hres0).
  all: destruct (reset_one_pass serve getUnsavedPaths hasPath meanwhile
                   this newTree newHead P w) as [[[P' y']|e|] w0] eqn:Hpass;
       simpl in *; [|stop_here|contradiction].
  all: destruct Hres0 as [HP' Hy'].
  all: destruct y';
       [|stop_here].
  all: assert (Hne : fetched evs0 <> []) by (by apply Hy').
  all: destruct (fetched evs0) as [|p ps] eqn:Hf; [done|].
  all: destruct (Hin0 p) as [HpP HpU]; [set_solver|].
  all: apply unsaved_in_U in HpU.
  all: assert (Hlt : (size (U ∖ P') < size (U ∖ P))%nat)
         by (apply subset_size; set_solver).
  - lia.
  - destruct (IH fuel P' w0) as (evs1 & Hh1 & Hnd1 & Hin1 & n & P1 & w1 & Hn & Hpp & Hlast);
      [lia|lia|].
    cbn zeta in Hlast. destruct Hlast as [Hw Hlast].
    exists (evs0 ++ evs1). rewrite Hh1, Hh0, app_assoc, fetched_app, Hf.
    split_and!; auto.
    + apply NoDup_app. split_and!; auto.
      intros q Hq Hq'. apply Hin1 in Hq'.
      apply Hin0 in Hq. set_solver.
    + intros q Hq. apply elem_of_app in Hq as [Hq|Hq].
      * apply Hin0 in Hq. tauto.
      * apply Hin1 in Hq. set_solver.
    + exists (S n), P1, w1. split_and!; [lia|econstructor; eauto|done|done].
Qed.

(** C8. If every path that [getUnsavedPaths] ever reports lies in a finite
    set [U], the loop that re-opens buffers ends within [size U + 1] passes:
    it runs some passes that each opened a buffer, at most [size U] of
    them, and stops with the first pass that opened none (or with the
    throw that cut a pass short). No path is opened twice. *)
Theorem reset_reopen_terminates (this newTree : WorkTree) (newHead : Oid)
    (fuel : nat) (w : World State) :
  (size U < fuel)%nat ->
  let one_pass := reset_one_pass serve getUnsavedPaths hasPath meanwhile
                    this newTree newHead in
  let run := reset_reopen serve getUnsavedPaths hasPath meanwhile
               fuel this newTree newHead ∅ w in
  run.1 <> Fuel
  ∧ NoDup (opened_between w run.2)
  ∧ (exists n P1 w1,
        (n <= size U)%nat
        ∧ progress_passes serve getUnsavedPaths hasPath meanwhile
            this newTree newHead n ∅ w P1 w1
        ∧ run.2 = (one_pass P1 w1).2
        ∧ ((exists P', (one_pass P1 w1).1 = Normal (P', false)
                       ∧ run.1 = Normal tt)
           ∨ (exists e, (one_pass P1 w1).1 = Throw e ∧ run.1 = Throw e)))
  ∧ (forall P0 w0 P' y w',
        one_pass P0 w0 = (Normal (P', y), w') ->
        (y = true <-> opened_between w0 w' <> [])).
Proof.
  intros Hfuel one_pass run.
  destruct (reset_reopen_spec this newTree newHead (size U) fuel ∅ w)
    as (evs & Hh & Hnd & _ & n & P1 & w1 & Hn & Hpp & Hw & Hlast);
    [apply subseteq_size; set_solver|lia|].
  fold run in Hh, Hw, Hlast. fold one_pass in Hw, Hlast.
  split_and!.
  - destruct Hlast as [(P' & _ & ->)|(e & _ & ->)]; discriminate.
  - by rewrite (opened_between_app w run.2 evs Hh).
  - exists n, P1, w1. split_and!; auto.
  - intros P0 w0 P' y w' Hpass. subst one_pass.
    destruct (reset_one_pass_spec this newTree newHead P0 w0)
      as (evs0 & Hh0 & _ & _ & Hres0).
    rewrite Hpass in Hh0, Hres0. simpl in *.
    rewrite (opened_between_app w0 w' evs0 Hh0). tauto.
Qed.

End Finite.

End ResetSpec.

(** ** Overlapping calls of [reset] *)

Section OverlapSpec.

Context {State : Type}
        (startEpoch : Js.Val -> Oid -> State -> Completion Js.Val * State).

Lemma reset_finish_run (newTree : WorkTree) (newHead : Oid) (m : Machine State) :
  reset_finish startEpoch NaN newTree newHead m = (Normal (Js.Arr []), m).
Proof. reflexivity. Qed.

Lemma sys_inv_boot (m : Machine State) : sys_inv m (boot m).
Proof.
  split; simpl; [constructor| | |reflexivity]; intros; by rewrite lookup_nil in *.
Qed.

Lemma sys_inv_step (m0 : Machine State) (ev : Step) (s : Sys State) :
  sys_inv m0 s -> sys_inv m0 (sys_step startEpoch ev s).
Proof.
  intros [Hfl Hs Hf Ht]. destruct ev as [newHead|f|k newTree|k]; simpl.
  - split; simpl.
    + apply Forall_app. split; [exact Hfl|].
      constructor; [|constructor]. simpl. by destruct (nextResetId (machine s)).
    + intros i r [[_ H]|[_ H]]%lookup_snoc_Some; [eauto|].
      injection H as <-. by destruct (nextResetId (machine s)).
    + intros k r res a b [[_ H]|[_ H]]%lookup_snoc_Some; [eauto|discriminate].
    + exact Ht.
  - split; simpl; eauto.
  - destruct (inflight s !! k) as [fr|] eqn:Hfr; [|by split].
    assert (Hnan : resetId fr = NaN).
    { eapply (proj1 (Forall_lookup _ _) Hfl); eauto. }
    rewrite Hnan, reset_finish_run. split; simpl.
    + rewrite delete_take_drop. apply Forall_app.
      split; [by apply Forall_take|by apply Forall_drop].
    + intros i r [[_ H]|[_ H]]%lookup_snoc_Some; [eauto|discriminate].
    + intros k' r res a b [[_ H]|[_ H]]%lookup_snoc_Some; [eauto|].
      by injection H as <- <- <- <-.
    + exact Ht.
  - destruct (inflight s !! k) as [fr|] eqn:Hfr; [|by split].
    split; simpl.
    + rewrite delete_take_drop. apply Forall_app.
      split; [by apply Forall_take|by apply Forall_drop].
    + intros i r [[_ H]|[_ H]]%lookup_snoc_Some; [eauto|discriminate].
    + intros k' r res a b [[_ H]|[_ H]]%lookup_snoc_Some; [eauto|discriminate].
    + exact Ht.
Qed.

Lemma sys_inv_run (m0 : Machine State) (evs : list Step) :
  forall s : Sys State, sys_inv m0 s -> sys_inv m0 (sys_run startEpoch evs s).
Proof.
  induction evs as [|ev evs IH]; intros s Hs; simpl; [done|].
  apply IH, sys_inv_step, Hs.
Qed.

(** C3, what the code does. In any run of calls of [reset] on one object,
    overlapping in any way, from the object as the constructor leaves it
    or as an earlier [reset] left it: every call is stamped NaN, so no
    stamp is larger than another; and every call that arrives at its last
    [if], the call started last included, finds [resetId == this.nextResetId]
    false, returns the empty list and leaves [this.id] as it was. No call
    installs its tree. *)
Theorem reset_guard_never_passes (evs : list Step) (m : Machine State) :
  let s := sys_run startEpoch evs (boot m) in
  (forall i r, transcript s !! i = Some (Started r) -> r = NaN)
  ∧ (forall k r res a b,
        transcript s !! k = Some (Finished r res a b) ->
        r = NaN ∧ res = Normal (Js.Arr []) ∧ b = a)
  ∧ this (machine s) = this m
  ∧ (forall r r', loosely_equal (increment r) r' = false).
Proof.
  intros s.
  destruct (sys_inv_run m evs (boot m) (sys_inv_boot m)) as [_ Hs Hf Ht].
  split_and!; [exact Hs|exact Hf|exact Ht|].
  by intros [] [].
Qed.

End OverlapSpec.

(** ** The model at work on the small dispatcher *)

(** Three calls of [getRootFileId] from a fresh process: one request. *)
Lemma getRootFileId_requested_once_demo :
  let run := getRootFileId_calls Demo.serve (fun _ n => S n) 3 Demo.w0 in
  run.1 = Normal [Js.Str "root"; Js.Str "root"; Js.Str "root"]
  ∧ history run.2 = [Sent (Js.Obj [("type", Js.Str "GetRootFileId")])].
Proof.
  pose proof (getRootFileId_requested_once Demo.serve (fun _ n => S n) 3 Demo.w0)
    as H.
  cbn zeta in H.
  destruct H as (H1 & H2 & _); [reflexivity|discriminate|reflexivity|].
  split; [exact H1|exact H2].
Defined.

(** C9 as the specification states it fails. With a root file id that is
    falsy, two calls send two GetRootFileId requests; and when the first
    request is refused, the first call throws, the second call sends the
    request again and returns an id: the calls do not all return the same
    and the request is not sent at most once. *)
Lemma getRootFileId_request_is_repeated :
  let falsy := getRootFileId_calls Demo.blank_serve (fun _ n => n) 2 Demo.w0 in
  let first := getRootFileId Demo.flaky_serve Demo.w0 in
  let second := getRootFileId Demo.flaky_serve first.2 in
  (falsy.1 = Normal [Js.Str ""; Js.Str ""]
   ∧ ~ (length (requests_of_type "GetRootFileId" (history falsy.2)) <= 1)%nat)
  ∧ (first.1 = Throw (Js.Error (Js.Str "not ready"))
     ∧ second.1 = Normal (Js.Str "root")
     ∧ ~ (length (requests_of_type "GetRootFileId" (history second.2)) <= 1)%nat).
Proof. vm_compute. split_and!; try reflexivity; lia. Qed.

(** The loop of [reset] with two unsaved paths, the second of which shows
    up only after the first buffer was opened. *)
Lemma reset_reopen_terminates_demo :
  (reset_reopen Demo.serve Demo.getUnsavedPaths Demo.hasPath Demo.meanwhile
     3 Demo.tree Demo.tree (Js.Str "new-head") ∅ Demo.w0).1 <> Fuel.
Proof.
  refine (proj1 (reset_reopen_terminates Demo.serve Demo.getUnsavedPaths
                   Demo.hasPath Demo.meanwhile
                   {["src/a.txt"; "src/b.txt"]} _
                   Demo.tree Demo.tree (Js.Str "new-head") 3%nat Demo.w0 _)).
  - intros n p. unfold Demo.getUnsavedPaths.
    destruct (n <? 2)%nat; set_solver.
  - vm_compute. lia.
Defined.

Example reset_reopen_demo_opens_each_path_once :
  let run := reset_reopen Demo.serve Demo.getUnsavedPaths Demo.hasPath
               Demo.meanwhile 3 Demo.tree Demo.tree (Js.Str "new-head") ∅
               Demo.w0 in
  run.1 = Normal tt
  ∧ opened_between Demo.w0 run.2 = ["src/a.txt"; "src/b.txt"].
Proof. vm_compute. split; reflexivity. Qed.

(** C7 as the specification states it fails: the request that [newTextFile]
    sends has neither a parent nor a name. *)
Lemma newTextFile_request_lacks_parent_and_name :
  ~ (forall req,
        Sent req ∈ history (newTextFile Demo.serve Demo.tree Demo.w0).2 ->
        Js.has_field req "parent_id" = true ∧ Js.has_field req "name" = true).
Proof.
  intros H.
  destruct (H (Js.Obj [("type", Js.Str "NewTextFile"); ("tree_id", Js.Num 7)]))
    as [Hp _].
  - vm_compute. left.
  - vm_compute in Hp. discriminate.
Qed.

(** Two calls of [reset] back to back on a new object: both are stamped
    NaN, and neither the first nor the second installs its tree. *)
Example two_resets :
  transcript (sys_run Demo.startEpoch
    [Start (Js.Str "h1"); Start (Js.Str "h2");
     Finish 0 {| id := Js.Num 11; replicaId := 1; io := Demo.provider |};
     Finish 0 {| id := Js.Num 12; replicaId := 1; io := Demo.provider |}]
    (boot Demo.m0))
  = [Started NaN; Started NaN;
     Finished NaN (Normal (Js.Arr [])) (Js.Num 7) (Js.Num 7);
     Finished NaN (Normal (Js.Arr [])) (Js.Num 7) (Js.Num 7)].
Proof. reflexivity. Qed.

(** A single call, with nothing overlapping it, does not install either. *)
Example one_reset :
  transcript (sys_run Demo.startEpoch
    [Start (Js.Str "h1");
     Finish 0 {| id := Js.Num 11; replicaId := 1; io := Demo.provider |}]
    (boot Demo.m0))
  = [Started NaN; Finished NaN (Normal (Js.Arr [])) (Js.Num 7) (Js.Num 7)].
Proof. reflexivity. Qed.

(** [reset("new-head")] where nothing binds [head]: the call has created
    the new tree and then throws. *)
Example reset_demo_throws :
  let run := reset Demo.serve Demo.getUnsavedPaths Demo.hasPath Demo.startEpoch
               Demo.meanwhile 3 (Js.Str "new-head") Demo.m0 in
  run.1 = Throw (Js.ReferenceError "head")
  ∧ history (world run.2)
    = [Sent (Js.Obj [("type", Js.Str "CreateWorkTree");
                     ("replica_id", Js.Num 1)])].
Proof. vm_compute. split; reflexivity. Qed.

(** The same call where [head] happens to be bound to another commit: the
    base entries of that commit are streamed, [newHead] is used for the
    texts only. The call returns the empty list and [this.id] stays. *)
Example reset_demo_streams_head :
  let m := {| world := Demo.w2; this := Demo.tree; nextResetId := Unassigned |} in
  let run := reset Demo.serve Demo.getUnsavedPaths Demo.hasPath Demo.startEpoch
               Demo.meanwhile 3 (Js.Str "new-head") m in
  run.1 = Normal (Js.Arr [])
  ∧ base_entries_requested (history (world run.2)) = [Js.Str "old-head"]
  ∧ fetched (history (world run.2)) = ["src/a.txt"; "src/b.txt"]
  ∧ id (this run.2) = Js.Num 7.
Proof. vm_compute. repeat split. Qed.

(** ** Further properties of the wrapper *)

Section Forward.
Context {State : Type} (serve : State -> Js.Val -> Response * State).

(** X15. Every instance method that is one request (getVersion,
    appendBaseEntries, applyOps, newTextFile, createDirectory, rename,
    remove, fileIdForPath, pathForFileId, entries, openTextFile, getText,
    edit, changesSince) sends exactly one request, tagged with its own type
    and carrying the handle of the tree it is called on; it throws the
    dispatcher's error or returns the members of the response the source
    names, and touches neither the cached root file id nor anything else
    of the process. *)
Theorem methods_forward_one_request (this : WorkTree) (c : Call)
    (w : World State) :
  exists req,
    let response := (serve (server w) req).1 in
    let run := invoke serve this c w in
    Js.get req "type" = Js.Str (request_type c)
    ∧ Js.get req "tree_id" = id this
    ∧ run.2 = with_history (history w ++ [Sent req])
                (with_server (serve (server w) req).2 w)
    ∧ run.1 = (if String.eqb (type response) "Error"
               then Throw (Js.Error (field response "message"))
               else Normal (field response <$> returned_members c)).
Proof.
  destruct c;
    unfold invoke, getVersion, appendBaseEntries, applyOps, newTextFile,
      createDirectory, rename, remove, fileIdForPath, pathForFileId,
      openTextFile, getText, edit, changesSince, entries;
    try (destruct (Js.truthy options); cbn zeta);
    rewrite map_run, call_run;
    match goal with |- context [serve (server w) ?r] => exists r end;
    cbn zeta; simpl;
    (split; [reflexivity|]); (split; [reflexivity|]); (split; [reflexivity|]);
    destruct (String.eqb _ "Error"); reflexivity.
Qed.
End Forward.

Section Root.
Context {State : Type} (serve : State -> Js.Val -> Response * State).

Lemma getRootFileId_refused (w : World State) :
  let req := Js.Obj [("type", Js.Str "GetRootFileId")] in
  let response := (serve (server w) req).1 in
  Js.truthy (rootFileId w) = false ->
  type response = "Error" ->
  getRootFileId serve w =
  (Throw (Js.Error (field response "message")),
   with_history (history w ++ [Sent req])
     (with_server (serve (server w) req).2 w)).
Proof.
  cbn zeta. intros H E. unfold getRootFileId.
  unfold bind at 1. simpl. rewrite H. simpl.
  unfold bind at 1. rewrite bind_request_run. cbn zeta.
  rewrite E. reflexivity.
Qed.

(** X1. One call of [getRootFileId]: with a truthy value in the static field
    it returns that value and does nothing else; otherwise it sends the
    request, and an error answer is thrown and leaves the field as it was,
    so that the next call asks again, while any other answer's [file_id] is
    stored and returned. *)
Theorem getRootFileId_one_call (w : World State) :
  let req := Js.Obj [("type", Js.Str "GetRootFileId")] in
  let response := (serve (server w) req).1 in
  let run := getRootFileId serve w in
  if Js.truthy (rootFileId w)
  then run = (Normal (rootFileId w), w)
  else history run.2 = history w ++ [Sent req]
       ∧ server run.2 = (serve (server w) req).2
       ∧ if String.eqb (type response) "Error"
         then run.1 = Throw (Js.Error (field response "message"))
              ∧ rootFileId run.2 = rootFileId w
         else run.1 = Normal (field response "file_id")
              ∧ rootFileId run.2 = field response "file_id".
Proof.
  cbn zeta. destruct (Js.truthy (rootFileId w)) eqn:T.
  - by apply getRootFileId_cached.
  - destruct (String.eqb_spec (type (serve (server w)
      (Js.Obj [("type", Js.Str "GetRootFileId")])).1) "Error") as [E|E].
    + by rewrite (getRootFileId_refused w T E).
    + by rewrite (getRootFileId_first serve w T E).
Qed.

Lemma getRootFileId_calls_S (other : nat -> State -> State) (n : nat)
    (w : World State) :
  getRootFileId_calls serve other (S n) w =
  match getRootFileId serve w with
  | (Normal v, w1) =>
    match getRootFileId_calls serve other n
            (with_server (other n (server w1)) w1) with
    | (Normal vs, w2) => (Normal (v :: vs), w2)
    | (Throw e, w2) => (Throw e, w2)
    | (Fuel, w2) => (Fuel, w2)
    end
  | (Throw e, w1) => (Throw e, w1)
  | (Fuel, w1) => (Fuel, w1)
  end.
Proof.
  cbn [getRootFileId_calls]. unfold bind, ret.
  destruct (getRootFileId serve w) as [[v|e|] w1]; reflexivity.
Qed.

(** X2. A root file id that is falsy (the empty string, say) is returned but
    never held: each of [n] calls sends the request again. *)
Theorem getRootFileId_falsy_id_is_asked_again (other : nat -> State -> State)
    (n : nat) :
  let req := Js.Obj [("type", Js.Str "GetRootFileId")] in
  (forall st, type (serve st req).1 <> "Error"
              ∧ Js.truthy (field (serve st req).1 "file_id") = false) ->
  forall w : World State,
    Js.truthy (rootFileId w) = false ->
    let run := getRootFileId_calls serve other n w in
    history run.2 = history w ++ replicate n (Sent req)
    ∧ exists ids, run.1 = Normal ids ∧ length ids = n
                  ∧ Forall (fun v => Js.truthy v = false) ids.
Proof.
  cbn zeta. intros Hserve. induction n as [|n IH]; intros w T.
  - simpl. rewrite app_nil_r. split; [done|]. by exists [].
  - destruct (Hserve (server w)) as [He Hf].
    rewrite getRootFileId_calls_S, (getRootFileId_first serve w T He).
    match goal with
    | |- context [getRootFileId_calls serve other n ?w1] =>
      destruct (IH w1) as (Hh & ids & Hr & Hl & Hall); [exact Hf|];
      destruct (getRootFileId_calls serve other n w1) as [r w2]
    end.
    simpl in *. subst r. simpl. rewrite Hh. simpl.
    rewrite <- app_assoc. split; [done|].
    eexists. split; [reflexivity|]. split; [simpl; lia|].
    constructor; auto.
Qed.

(** X3. The Entries request is made of the type tag, the tree handle and the
    two options, and the options are normalised: [show_deleted] is [false]
    or a truthy value, [descend_into] is [null] or a truthy value, never
    [undefined]. A list given as [descendInto] is passed on as it is, the
    empty list too. *)
Theorem entries_request_is_normalised (this : WorkTree) (options : Js.Val)
    (w : World State) :
  exists showDeleted descendInto,
    history (entries serve this options w).2
    = history w ++ [Sent (Js.Obj [("type", Js.Str "Entries");
                                  ("tree_id", id this);
                                  ("show_deleted", showDeleted);
                                  ("descend_into", descendInto)])]
    ∧ (showDeleted = Js.Bool false ∨ Js.truthy showDeleted = true)
    ∧ (descendInto = Js.Null ∨ Js.truthy descendInto = true)
    ∧ (forall items, Js.get options "descendInto" = Js.Arr items ->
                     descendInto = Js.Arr items).
Proof.
  unfold entries. destruct (Js.truthy options) eqn:T; cbn zeta.
  - do 2 eexists. rewrite call_run. cbn [snd history with_history].
    split; [reflexivity|]. unfold Js.or. split_and!.
    + destruct (Js.truthy (Js.get options "showDeleted")) eqn:E; auto.
    + destruct (Js.truthy (Js.get options "descendInto")) eqn:E; auto.
    + intros items ->. reflexivity.
  - do 2 eexists. rewrite call_run. cbn [snd history with_history].
    split; [reflexivity|]. split_and!; auto.
    intros items H. destruct options; simpl in *; discriminate.
Qed.

End Root.


(** ** Further properties of [reset] *)

Section Streams.
Context {State : Type} (serve : State -> Js.Val -> Response * State).
Context (meanwhile : State -> State).

Ltac mrun :=
  repeat first
    [ rewrite request_run
    | progress unfold bind, ret, throw, log, await, suspend, query, external
    | progress simpl ].

Lemma append_body_run (newTree : WorkTree) (entries : list BaseEntry)
    (w : World State) :
  (appendBaseEntries serve newTree entries ;;; ret tt) w =
  (if String.eqb (type (serve (server w) (append_request (id newTree) entries)).1)
                 "Error"
   then Throw (Js.Error (field (serve (server w)
                 (append_request (id newTree) entries)).1 "message"))
   else Normal tt,
   with_history (history w ++ [Sent (append_request (id newTree) entries)])
     (with_server (serve (server w) (append_request (id newTree) entries)).2 w)).
Proof.
  unfold appendBaseEntries, append_request. unfold bind at 1.
  rewrite call_run. destruct (String.eqb _ "Error"); reflexivity.
Qed.

Lemma for_await_cons_run {A} (x : A) (rest : list A)
    (body : A -> M (World State) unit) (w : World State) :
  for_await meanwhile (x :: rest) body w =
  match body x (with_server (meanwhile (server w)) w) with
  | (Normal _, w2) => for_await meanwhile rest body w2
  | (Throw e, w2) => (Throw e, w2)
  | (Fuel, w2) => (Fuel, w2)
  end.
Proof. reflexivity. Qed.

Lemma for_await_appends (newTree : WorkTree) (batches : list (list BaseEntry)) :
  forall w : World State,
  exists n : nat,
    (n <= length batches)%nat
    ∧ history (for_await meanwhile batches
                 (fun entries => appendBaseEntries serve newTree entries ;;; ret tt)
                 w).2
      = history w ++ appends (id newTree) (take n batches)
    ∧ match (for_await meanwhile batches
               (fun entries => appendBaseEntries serve newTree entries ;;; ret tt)
               w).1 with
      | Normal _ => n = length batches
      | Throw _ => (0 < n)%nat
      | Fuel => False
      end.
Proof.
  induction batches as [|entries rest IH]; intros w.
  - exists 0%nat. simpl. unfold suspend. simpl. rewrite app_nil_r. auto.
  - rewrite for_await_cons_run, append_body_run.
    destruct (String.eqb _ "Error").
    + exists 1%nat. simpl. split_and!; [lia|done|lia].
    + match goal with
      | |- context [for_await _ _ ?body ?w1] =>
        destruct (IH w1) as (n & Hn & Hh & Hr);
        destruct (for_await meanwhile rest body w1) as [[[]|e|] w2]
      end; simpl in *; try contradiction.
      * exists (S n). simpl. rewrite Hh, <- app_assoc. simpl.
        split_and!; [lia|done|lia].
      * exists (S n). simpl. rewrite Hh, <- app_assoc. simpl.
        split_and!; [lia|done|lia].
Qed.

Lemma reset_build_run (this : WorkTree) (w : World State) :
  reset_build serve meanwhile this w =
  let create := Js.Obj [("type", Js.Str "CreateWorkTree");
                        ("replica_id", Js.Num (replicaId this))] in
  let response := (serve (server w) create).1 in
  let w1 := with_history (history w ++ [Sent create])
              (with_server (serve (server w) create).2 w) in
  let newTree := {| id := field response "tree_id";
                    replicaId := replicaId this; io := io this |} in
  if replicaId this <=? 0
  then (Throw (Js.Error (Js.Str "Replica id must be positive")), w)
  else if String.eqb (type response) "Error"
  then (Throw (Js.Error (field response "message")), w1)
  else match head w with
       | None => (Throw (Js.ReferenceError "head"), w1)
       | Some h =>
         let r := for_await meanwhile (IoProvider.getBaseEntries (io this) h)
                    (fun entries =>
                       appendBaseEntries serve newTree entries ;;; ret tt)
                    (with_history (history w1 ++ [BaseEntriesOf h]) w1) in
         (match r.1 with
          | Normal _ => Normal newTree
          | Throw e => Throw e
          | Fuel => Fuel
          end, r.2)
       end.
Proof.
  cbn zeta. unfold reset_build, new_WorkTree, free_head.
  destruct (replicaId this <=? 0); [reflexivity|].
  unfold bind at 1. rewrite call_run.
  destruct (String.eqb _ "Error"); [reflexivity|].
  unfold bind at 1. cbn [head with_history with_server].
  destruct (head w) as [h|]; [|reflexivity].
  unfold bind at 1. unfold log at 1. unfold bind at 1. simpl.
  destruct (for_await _ _ _ _) as [[[]|e|] w2]; reflexivity.
Qed.



End Streams.

Section Reopen.
Context {State : Type} (serve : State -> Js.Val -> Response * State).
Context (getUnsavedPaths : State -> list string)
        (hasPath : State -> Js.Val -> string -> bool).
Context (meanwhile : State -> State).

(** X6. Opening one buffer: the file id of the path is asked of the new
    tree first; the buffer is opened exactly when that request succeeded
    and the provider delivered the text, and then on the file id the
    dispatcher answered and with the text the provider delivered. A
    rejected text is thrown on and no buffer is opened. *)
Theorem reset_open_steps (this newTree : WorkTree) (newHead : Oid)
    (path : string) (w : World State) :
  let ask := Js.Obj [("type", Js.Str "FileIdForPath"); ("tree_id", id newTree);
                     ("path", Js.Str path)] in
  let answer := (serve (server w) ask).1 in
  let w1 := with_history (history w ++ [Sent ask])
              (with_server (serve (server w) ask).2 w) in
  let w2 := with_server (meanwhile (server w1))
              (with_history (history w1 ++ [TextOf newHead path]) w1) in
  reset_open serve meanwhile this newTree newHead path w =
  if String.eqb (type answer) "Error"
  then (Throw (Js.Error (field answer "message")), w1)
  else match IoProvider.getText (io this) newHead path with
       | inl e => (Throw e, w2)
       | inr text =>
         let open := Js.Obj [("type", Js.Str "OpenTextFile");
                             ("tree_id", id newTree);
                             ("file_id", field answer "file_id");
                             ("base_text", Js.Str text)] in
         let opened := (serve (server w2) open).1 in
         (if String.eqb (type opened) "Error"
          then Throw (Js.Error (field opened "message"))
          else Normal true,
          with_history (history w2 ++ [Sent open])
            (with_server (serve (server w2) open).2 w2))
       end.
Proof.
  cbn zeta. unfold reset_open, fileIdForPath, openTextFile.
  unfold bind at 1. rewrite call_run.
  destruct (String.eqb _ "Error"); [reflexivity|].
  unfold bind at 1. unfold log at 1. unfold bind at 1. unfold await.
  unfold bind at 1. unfold suspend at 1.
  destruct (IoProvider.getText (io this) newHead path) as [e|text];
    [reflexivity|].
  unfold ret at 1. rewrite map_run, call_run.
  destruct (String.eqb _ "Error"); reflexivity.
Qed.

Ltac events_ok :=
  repeat first [ apply Forall_nil | apply Forall_cons; split ];
  simpl; try reflexivity;
  (split; [reflexivity | first [ left; reflexivity | right; reflexivity ]]).

Lemma reset_open_events (this newTree : WorkTree) (newHead : Oid)
    (path : string) (w : World State) :
  exists evs,
    history (reset_open serve meanwhile this newTree newHead path w).2
    = history w ++ evs
    ∧ Forall (reopen_event newTree newHead) evs.
Proof.
  unfold reset_open, fileIdForPath, openTextFile.
  unfold bind at 1. rewrite call_run.
  destruct (String.eqb _ "Error").
  { eexists. split; [reflexivity|]. events_ok. }
  unfold bind at 1. unfold log at 1. unfold bind at 1. unfold await.
  unfold bind at 1. unfold suspend at 1.
  destruct (IoProvider.getText (io this) newHead path) as [e|text].
  { eexists. simpl. rewrite <- app_assoc. split; [reflexivity|]. events_ok. }
  unfold ret at 1. rewrite map_run, call_run.
  eexists. simpl. rewrite <- !app_assoc. split; [reflexivity|]. events_ok.
Qed.

Lemma reset_pass_cons_run (this newTree : WorkTree) (newHead : Oid)
    (path : string) (rest : list string) (P : gset string) (y : bool)
    (w : World State) :
  reset_pass serve hasPath meanwhile this newTree newHead (path :: rest) P y w =
  if bool_decide (path ∈ P) || negb (hasPath (server w) (id newTree) path)
  then reset_pass serve hasPath meanwhile this newTree newHead rest
         ({[path]} ∪ P) y w
  else match reset_open serve meanwhile this newTree newHead path w with
       | (Normal yb, w0) =>
         reset_pass serve hasPath meanwhile this newTree newHead rest
           ({[path]} ∪ P) yb w0
       | (Throw e, w0) => (Throw e, w0)
       | (Fuel, w0) => (Fuel, w0)
       end.
Proof.
  cbn [reset_pass]. unfold bind at 1. case_bool_decide; simpl.
  - reflexivity.
  - unfold query. destruct (hasPath (server w) (id newTree) path); simpl.
    + unfold bind at 1.
      destruct (reset_open _ _ _ _ _ _ _) as [[yb|e|] w0]; reflexivity.
    + reflexivity.
Qed.

Lemma reset_pass_events (this newTree : WorkTree) (newHead : Oid)
    (paths : list string) :
  forall (P : gset string) (y : bool) (w : World State),
  exists evs,
    history (reset_pass serve hasPath meanwhile this newTree newHead paths P y w).2
    = history w ++ evs
    ∧ Forall (reopen_event newTree newHead) evs.
Proof.
  induction paths as [|path rest IH]; intros P y w.
  - exists []. simpl. rewrite app_nil_r. split; [done|constructor].
  - rewrite reset_pass_cons_run.
    destruct (bool_decide (path ∈ P)); simpl; [apply IH|].
    destruct (hasPath (server w) (id newTree) path) eqn:Hhas; simpl; [|apply IH].
    destruct (reset_open_events this newTree newHead path w) as (evs0 & Hh0 & Hev0).
    destruct (reset_open_spec serve meanwhile this newTree newHead path w)
      as (evs0' & _ & Hr0).
    destruct (reset_open serve meanwhile this newTree newHead path w)
      as [[yb|e|] w0]; simpl in *.
    + destruct (IH ({[path]} ∪ P) yb w0) as (evs & Hh & Hev).
      exists (evs0 ++ evs). rewrite Hh, Hh0, app_assoc.
      split; [done|by apply Forall_app].
    + by exists evs0.
    + contradiction.
Qed.

(** A path that is opened in a pass had its turn: the pass had dealt with
    the paths before it, and in the state that left, the path was not among
    the processed ones and the new tree had it. *)
Lemma reset_pass_turn (this newTree : WorkTree) (newHead : Oid)
    (paths : list string) :
  forall (P : gset string) (y : bool) (w : World State) (evs : list Event),
    history (reset_pass serve hasPath meanwhile this newTree newHead paths P y w).2
    = history w ++ evs ->
    forall p, p ∈ fetched evs ->
    exists before after Pp yp wp,
      paths = before ++ p :: after
      ∧ reset_pass serve hasPath meanwhile this newTree newHead before P y w
        = (Normal (Pp, yp), wp)
      ∧ (p ∉ Pp)
      ∧ hasPath (server wp) (id newTree) p = true.
Proof.
  induction paths as [|path rest IH]; intros P y w evs Hh p Hp.
  - simpl in Hh. rewrite <- (app_nil_r (history w)) in Hh at 1.
    apply app_inv_head in Hh. subst evs. inversion Hp.
  - assert (Hskip : forall before after Pp yp wp,
      rest = before ++ p :: after ->
      bool_decide (path ∈ P) || negb (hasPath (server w) (id newTree) path) = true ->
      reset_pass serve hasPath meanwhile this newTree newHead before
        ({[path]} ∪ P) y w = (Normal (Pp, yp), wp) ->
      p ∉ Pp -> hasPath (server wp) (id newTree) p = true ->
      exists before after Pp yp wp,
        path :: rest = before ++ p :: after
        ∧ reset_pass serve hasPath meanwhile this newTree newHead before P y w
          = (Normal (Pp, yp), wp)
        ∧ (p ∉ Pp)
        ∧ hasPath (server wp) (id newTree) p = true).
    { intros before after Pp yp wp -> Hc Hrun Hn Hhas.
      exists (path :: before), after, Pp, yp, wp.
      rewrite reset_pass_cons_run, Hc. by split_and!. }
    rewrite reset_pass_cons_run in Hh.
    destruct (bool_decide (path ∈ P) || negb (hasPath (server w) (id newTree) path))
      eqn:Hc.
    { destruct (IH _ _ _ _ Hh p Hp) as (before & after & Pp & yp & wp & ? & ? & ? & ?).
      eauto. }
    apply orb_false_iff in Hc as [HP Hhas].
    apply bool_decide_eq_false in HP. apply negb_false_iff in Hhas.
    assert (Hhere : exists before after Pp yp wp,
      path :: rest = before ++ path :: after
      ∧ reset_pass serve hasPath meanwhile this newTree newHead before P y w
        = (Normal (Pp, yp), wp)
      ∧ (path ∉ Pp)
      ∧ hasPath (server wp) (id newTree) path = true).
    { exists [], rest, P, y, w. by split_and!. }
    destruct (reset_open_spec serve meanwhile this newTree newHead path w)
      as (evs0 & Hh0 & Hr0).
    destruct (reset_open serve meanwhile this newTree newHead path w)
      as [[yb|e|] w0] eqn:Hopen; simpl in *.
    + destruct (reset_pass_events this newTree newHead rest ({[path]} ∪ P) yb w0)
        as (evs1 & Hh1 & _).
      rewrite Hh1, Hh0, <- app_assoc in Hh. apply app_inv_head in Hh. subst evs.
      rewrite fetched_app in Hp. destruct Hr0 as [_ Hf]. rewrite Hf in Hp.
      apply elem_of_app in Hp as [Hp|Hp].
      * apply list_elem_of_singleton in Hp as ->. exact Hhere.
      * destruct (IH _ _ _ _ Hh1 p Hp) as (before & after & Pp & yp & wp & -> & Hrun & ? & ?).
        exists (path :: before), after, Pp, yp, wp.
        rewrite reset_pass_cons_run.
        rewrite (bool_decide_eq_false_2 _ HP), Hhas. simpl. rewrite Hopen.
        by split_and!.
    + rewrite Hh0 in Hh. apply app_inv_head in Hh. subst evs.
      destruct Hr0 as [Hf|Hf]; rewrite Hf in Hp.
      * inversion Hp.
      * apply list_elem_of_singleton in Hp as ->. exact Hhere.
    + contradiction.
Qed.

Lemma progress_passes_snoc (this newTree : WorkTree) (newHead : Oid)
    (n : nat) (P : gset string) (w : World State) (P1 : gset string)
    (w1 : World State) (P2 : gset string) (w2 : World State) :
  reset_one_pass serve getUnsavedPaths hasPath meanwhile this newTree newHead P w
  = (Normal (P1, true), w1) ->
  progress_passes serve getUnsavedPaths hasPath meanwhile this newTree newHead
    n P1 w1 P2 w2 ->
  progress_passes serve getUnsavedPaths hasPath meanwhile this newTree newHead
    (S n) P w P2 w2.
Proof. intros. econstructor; eauto. Qed.

Lemma reset_reopen_events (this newTree : WorkTree) (newHead : Oid) (fuel : nat) :
  forall (P : gset string) (w : World State),
  exists evs,
    history (reset_reopen serve getUnsavedPaths hasPath meanwhile
               fuel this newTree newHead P w).2 = history w ++ evs
    ∧ Forall (reopen_event newTree newHead) evs
    ∧ NoDup (fetched evs)
    ∧ (forall p, p ∈ fetched evs ->
         (p ∉ P)
         ∧ exists n Pk wk before after Pp yp wp,
             progress_passes serve getUnsavedPaths hasPath meanwhile
               this newTree newHead n P w Pk wk
             ∧ getUnsavedPaths (server wk) = before ++ p :: after
             ∧ reset_pass serve hasPath meanwhile this newTree newHead
                 before Pk false wk = (Normal (Pp, yp), wp)
             ∧ (p ∉ Pp)
             ∧ hasPath (server wp) (id newTree) p = true).
Proof.
  induction fuel as [|fuel IH]; intros P w.
  - exists []. simpl. rewrite app_nil_r. split_and!; [done|constructor|constructor|].
    intros p Hp. inversion Hp.
  - simpl. unfold bind.
    destruct (reset_one_pass_spec serve getUnsavedPaths hasPath meanwhile
                this newTree newHead P w) as (evs0 & Hh0 & Hnd0 & Hin0 & Hres0).
    assert (Hhere : forall p, p ∈ fetched evs0 ->
      (p ∉ P)
      ∧ exists n Pk wk before after Pp yp wp,
          progress_passes serve getUnsavedPaths hasPath meanwhile
            this newTree newHead n P w Pk wk
          ∧ getUnsavedPaths (server wk) = before ++ p :: after
          ∧ reset_pass serve hasPath meanwhile this newTree newHead
              before Pk false wk = (Normal (Pp, yp), wp)
          ∧ (p ∉ Pp)
          ∧ hasPath (server wp) (id newTree) p = true).
    { intros p Hp. split; [by apply Hin0|].
      destruct (reset_pass_turn this newTree newHead (getUnsavedPaths (server w))
                  P false w evs0 Hh0 p Hp)
        as (before & after & Pp & yp & wp & ? & ? & ? & ?).
      exists 0%nat, P, w, before, after, Pp, yp, wp.
      split_and!; [constructor|done..]. }
    destruct (reset_pass_events this newTree newHead
                (getUnsavedPaths (server w)) P false w) as (evs0' & Hh0' & Hev0).
    unfold reset_one_pass, bind, query in *.
    rewrite Hh0 in Hh0'. apply app_inv_head in Hh0'. subst evs0'.
    destruct (reset_pass serve hasPath meanwhile this newTree newHead
                (getUnsavedPaths (server w)) P false w) as [[[P' y']|e|] w0] eqn:Hpass;
      simpl in *; [|by exists evs0|contradiction].
    destruct y'; simpl; [|by exists evs0].
    destruct Hres0 as [HP' _].
    destruct (IH P' w0) as (evs1 & Hh1 & Hev1 & Hnd1 & Hin1).
    exists (evs0 ++ evs1). rewrite Hh1, Hh0, app_assoc, fetched_app.
    split_and!; [done|by apply Forall_app| |].
    + apply NoDup_app. split_and!; auto.
      intros q Hq Hq'. apply Hin1 in Hq' as [Hq' _]. apply Hin0 in Hq.
      set_solver.
    + intros q [Hq|Hq]%elem_of_app; [by apply Hhere|].
      apply Hin1 in Hq
        as (Hq & n & Pk & wk & before & after & Pp & yp & wp & Hpp & ? & ? & ? & ?).
      split; [set_solver|].
      exists (S n), Pk, wk, before, after, Pp, yp, wp.
      split_and!; try done.
      eapply progress_passes_snoc; [|exact Hpp].
      unfold reset_one_pass, bind, query. by rewrite Hpass.
Qed.

Lemma reset_reopen_skips_processed (this newTree : WorkTree) (newHead : Oid)
    (fuel : nat) (P : gset string) (w : World State) (p : string) :
  p ∈ opened_between w
        (reset_reopen serve getUnsavedPaths hasPath meanwhile
           fuel this newTree newHead P w).2 ->
  p ∉ P.
Proof.
  destruct (reset_reopen_events this newTree newHead fuel P w)
    as (evs & Hh & _ & _ & Hin).
  rewrite (opened_between_app _ _ _ Hh). intros Hp. by apply Hin.
Qed.

(** X7. Whatever the unsaved paths do and however long the loop runs, it
    talks to the new tree only: every request it sends is a FileIdForPath
    or an OpenTextFile carrying the new tree's handle, every text is
    fetched at [newHead], and it asks for no base entries. *)
Theorem reset_reopen_talks_to_the_new_tree (this newTree : WorkTree)
    (newHead : Oid) (fuel : nat) (P : gset string) (w : World State) :
  let run := reset_reopen serve getUnsavedPaths hasPath meanwhile
               fuel this newTree newHead P w in
  exists evs,
    history run.2 = history w ++ evs
    ∧ Forall (reopen_event newTree newHead) evs.
Proof.
  destruct (reset_reopen_events this newTree newHead fuel P w)
    as (evs & Hh & Hev & _).
  by exists evs.
Qed.

(** X8. The loop opens no path twice and none of the paths it was started
    with as processed. Every path it opens had its turn in one of the
    passes of this run: after some number of passes that each opened
    something, the next pass read the unsaved paths, the path was among
    them, and when the pass had dealt with the paths before it, the path
    was not among the processed ones and the new tree had it, in the state
    the process was in at that moment. This needs no bound on the unsaved
    paths and holds for every prefix of a run that never ends. *)
Theorem reset_reopen_opens_each_path_once (this newTree : WorkTree)
    (newHead : Oid) (fuel : nat) (P : gset string) (w : World State) :
  let run := reset_reopen serve getUnsavedPaths hasPath meanwhile
               fuel this newTree newHead P w in
  NoDup (opened_between w run.2)
  ∧ (forall p, p ∈ opened_between w run.2 ->
       (p ∉ P)
       ∧ exists n Pk wk before after Pp yp wp,
           progress_passes serve getUnsavedPaths hasPath meanwhile
             this newTree newHead n P w Pk wk
           ∧ getUnsavedPaths (server wk) = before ++ p :: after
           ∧ reset_pass serve hasPath meanwhile this newTree newHead
               before Pk false wk = (Normal (Pp, yp), wp)
           ∧ (p ∉ Pp)
           ∧ hasPath (server wp) (id newTree) p = true).
Proof.
  destruct (reset_reopen_events this newTree newHead fuel P w)
    as (evs & Hh & _ & Hnd & Hin).
  cbn zeta.
  rewrite (opened_between_app _ _ _ Hh).
  by split.
Qed.

End Reopen.

Section Sequential.
Context {State : Type} (serve : State -> Js.Val -> Response * State).
Context (getUnsavedPaths : State -> list string)
        (hasPath : State -> Js.Val -> string -> bool)
        (startEpoch : Js.Val -> Oid -> State -> Completion Js.Val * State).
Context (meanwhile : State -> State).

Lemma reset_run (fuel : nat) (newHead : Oid) (m : Machine State) :
  reset serve getUnsavedPaths hasPath startEpoch meanwhile fuel newHead m =
  let stamped w := {| world := w; this := this m; nextResetId := NaN |} in
  match reset_build serve meanwhile (this m) (world m) with
  | (Normal newTree, w1) =>
    match reset_reopen serve getUnsavedPaths hasPath meanwhile fuel (this m)
            newTree newHead ∅ w1 with
    | (Normal _, w2) => (Normal (Js.Arr []), stamped w2)
    | (Throw e, w2) => (Throw e, stamped w2)
    | (Fuel, w2) => (Fuel, stamped w2)
    end
  | (Throw e, w1) => (Throw e, stamped w1)
  | (Fuel, w1) => (Fuel, stamped w1)
  end.
Proof.
  cbn zeta. unfold reset, bind, reset_stamp, on_world. simpl.
  destruct (reset_build _ _ _ _) as [[newTree|e|] w1];
    try (by destruct (nextResetId m)).
  destruct (reset_reopen _ _ _ _ _ _ _ _ _ _) as [[[]|e|] w2];
    by destruct (nextResetId m).
Qed.

(** X10. A call of [reset] that no other call of [reset] overlaps never
    installs the tree it built: however the call ends, [this.id],
    [this.replicaId] and [this.io] are what they were and
    [this.nextResetId] is NaN; when the call returns, it returns the empty
    list; and [startEpoch] is not called, the process is left in the state
    in which the loop over the unsaved paths ended. *)
Theorem reset_never_installs (fuel : nat) (newHead : Oid) (m : Machine State) :
  let run := reset serve getUnsavedPaths hasPath startEpoch meanwhile
               fuel newHead m in
  this run.2 = this m
  ∧ nextResetId run.2 = NaN
  ∧ match run.1 with
    | Normal ops =>
      ops = Js.Arr []
      ∧ exists newTree w1,
          reset_build serve meanwhile (this m) (world m) = (Normal newTree, w1)
          ∧ reset_reopen serve getUnsavedPaths hasPath meanwhile fuel (this m)
              newTree newHead ∅ w1 = (Normal tt, world run.2)
    | _ => True
    end.
Proof.
  cbn zeta. rewrite reset_run. cbn zeta.
  destruct (reset_build _ _ _ _) as [[newTree|e|] w1]; try done.
  destruct (reset_reopen _ _ _ _ _ _ _ _ _ _) as [[[]|e|] w2] eqn:E; try done.
  simpl. split_and!; try done. exists newTree, w1. by rewrite E.
Qed.

End Sequential.

Section Whole.
Context {State : Type} (serve : State -> Js.Val -> Response * State).
Context (getUnsavedPaths : State -> list string)
        (hasPath : State -> Js.Val -> string -> bool)
        (startEpoch : Js.Val -> Oid -> State -> Completion Js.Val * State).
Context (meanwhile : State -> State).

Lemma appends_events (tree : Js.Val) (newHead : Oid) (bound : option Js.Val)
    (batches : list (list BaseEntry)) :
  Forall (reset_event tree newHead bound) (appends tree batches).
Proof.
  unfold appends. apply Forall_fmap, Forall_forall. intros entries _. reflexivity.
Qed.

Lemma reopen_event_reset_event (newTree : WorkTree) (newHead : Oid)
    (bound : option Js.Val) (evs : list Event) :
  Forall (reopen_event newTree newHead) evs ->
  Forall (reset_event (id newTree) newHead bound) evs.
Proof.
  intros H. eapply Forall_impl; [exact H|].
  intros [req|oid|oid path]; simpl; [tauto|tauto|done].
Qed.

Lemma reset_build_events (newHead : Oid) (this : WorkTree) (w : World State) :
  let create := Js.Obj [("type", Js.Str "CreateWorkTree");
                        ("replica_id", Js.Num (replicaId this))] in
  let newTreeId := field (serve (server w) create).1 "tree_id" in
  let run := reset_build serve meanwhile this w in
  (run.2 = w ∧ exists e, run.1 = Throw e)
  ∨ (exists rest,
        history run.2 = history w ++ Sent create :: rest
        ∧ Forall (reset_event newTreeId newHead (head w)) rest
        ∧ match run.1 with
          | Normal newTree => id newTree = newTreeId
          | Throw _ => True
          | Fuel => False
          end).
Proof.
  cbn zeta. rewrite reset_build_run. cbn zeta.
  destruct (replicaId this <=? 0); [left; eauto|right].
  destruct (String.eqb _ "Error").
  { exists []. simpl. split_and!; [done|constructor|done]. }
  destruct (head w) as [h|] eqn:Hh.
  2:{ exists []. simpl. split_and!; [done|constructor|done]. }
  match goal with
  | |- context [for_await _ ?bs (fun entries => appendBaseEntries _ ?nt entries ;;; _) ?w1] =>
    destruct (for_await_appends serve meanwhile nt bs w1) as (n & Hn & Hhist & Hres);
    destruct (for_await meanwhile bs
                (fun entries => appendBaseEntries serve nt entries ;;; ret tt) w1)
      as [[[]|e|] w2]
  end; simpl in *; try contradiction.
  all: eexists; rewrite Hhist, <- !app_assoc; simpl; split_and!;
    [reflexivity| |done].
  all: constructor; [done|apply appends_events].
Qed.

(** X12. Until it installs its tree, [reset] leaves the live tree alone:
    after the CreateWorkTree request every request it sends carries the
    handle of the tree just created, every text is fetched at [newHead],
    and base entries are asked only for what [head] is bound to. A call
    with a replica id that is not positive sends nothing at all. *)
Theorem reset_works_on_the_new_tree_only (fuel : nat) (newHead : Oid)
    (m : Machine State) :
  let create := Js.Obj [("type", Js.Str "CreateWorkTree");
                        ("replica_id", Js.Num (replicaId (this m)))] in
  let newTreeId := field (serve (server (world m)) create).1 "tree_id" in
  let run := reset serve getUnsavedPaths hasPath startEpoch meanwhile
               fuel newHead m in
  history (world run.2) = history (world m)
  ∨ exists rest,
      history (world run.2) = history (world m) ++ Sent create :: rest
      ∧ Forall (reset_event newTreeId newHead (head (world m))) rest.
Proof.
  cbn zeta. rewrite reset_run. cbn zeta.
  destruct (reset_build_events newHead (this m) (world m))
    as [[Hw [e He]]|(rest & Hh & Hev & Hid)].
  { destruct (reset_build _ _ _ _) as [r w1]. simpl in *. subst. by left. }
  right.
  destruct (reset_build serve meanwhile (this m) (world m))
    as [[newTree|e|] w1]; simpl in *; [|by exists rest|contradiction].
  destruct (reset_reopen_events serve getUnsavedPaths hasPath meanwhile
              (this m) newTree newHead fuel ∅ w1) as (evs & Hh2 & Hev2 & _).
  apply (reopen_event_reset_event _ _ (head (world m))) in Hev2.
  rewrite Hid in Hev2.
  assert (Hall : history (reset_reopen serve getUnsavedPaths hasPath meanwhile
                   fuel (this m) newTree newHead ∅ w1).2
                 = history (world m) ++ Sent (Js.Obj
                     [("type", Js.Str "CreateWorkTree");
                      ("replica_id", Js.Num (replicaId (this m)))]) :: (rest ++ evs)).
  { rewrite Hh2, Hh, <- app_assoc. done. }
  destruct (reset_reopen _ _ _ _ _ _ _ _ _ _) as [[[]|e|] w2]; simpl in *.
  all: exists (rest ++ evs); split; auto using Forall_app_2.
Qed.

End Whole.

Section Settled.
Context {State : Type} (serve : State -> Js.Val -> Response * State).
Context (getUnsavedPaths : State -> list string)
        (hasPath : State -> Js.Val -> string -> bool).
Context (meanwhile : State -> State).

(** X14. A pass settles every path it was given, opened or not: a path that
    one full pass has looked at is opened by no later pass, not even when
    the new tree lacked it then and has it now. *)
Theorem reset_pass_settles_its_paths (this newTree : WorkTree) (newHead : Oid)
    (P : gset string) (w : World State) :
  match reset_one_pass serve getUnsavedPaths hasPath meanwhile
          this newTree newHead P w with
  | (Normal (P', _), w1) =>
    (forall p, p ∈ getUnsavedPaths (server w) -> p ∈ P')
    ∧ forall fuel p,
        p ∈ getUnsavedPaths (server w) ->
        p ∉ opened_between w1
              (reset_reopen serve getUnsavedPaths hasPath meanwhile
                 fuel this newTree newHead P' w1).2
  | _ => True
  end.
Proof.
  destruct (reset_one_pass_spec serve getUnsavedPaths hasPath meanwhile
              this newTree newHead P w) as (evs & _ & _ & _ & Hres).
  destruct (reset_one_pass _ _ _ _ _ _ _ _ _) as [[[P' y]|e|] w1]; simpl in *;
    try done.
  destruct Hres as [-> _].
  assert (Hin : forall p, p ∈ getUnsavedPaths (server w) ->
                          p ∈ list_to_set (getUnsavedPaths (server w)) ∪ P)
    by set_solver.
  split; [exact Hin|].
  intros fuel p Hp Hopened.
  apply reset_reopen_skips_processed in Hopened. apply Hopened, Hin, Hp.
Qed.

End Settled.

(** ** The further properties at work *)


(** The dispatcher refuses the last of the two batches: both requests were
    sent and the call throws. *)
Example reset_build_stops_at_refusal :
  let run := reset_build Demo.strict_serve Demo.meanwhile Demo.tree Demo.w2 in
  run.1 = Throw (Js.Error (Js.Str "refused"))
  ∧ length (requests_of_type "AppendBaseEntries" (history run.2)) = 2%nat.
Proof. vm_compute. split; reflexivity. Qed.

Lemma getRootFileId_falsy_id_is_asked_again_demo :
  history (getRootFileId_calls Demo.blank_serve (fun _ n => n) 3 Demo.w0).2
  = replicate 3 (Sent (Js.Obj [("type", Js.Str "GetRootFileId")])).
Proof.
  refine (proj1 (getRootFileId_falsy_id_is_asked_again Demo.blank_serve
                   (fun _ n => n) 3 _ Demo.w0 _)).
  - intros st. split; [discriminate|reflexivity].
  - reflexivity.
Defined.
